(** * vibecherry-app: the detect-and-repair core

    A shallow embedding of [src/utils/errorDetector.ts] (class [ErrorDetector]),
    [src/utils/selfHealing.ts] (class [SelfHealingEngine]) and the types of
    [src/types/errors.ts], followed by the properties of the detector and of
    the healing engine.

    JavaScript strings are sequences of UTF-16 code units; they are modelled
    as lists of code units ([N]).  Methods run in a small state-and-exception
    monad over a [World] holding the two objects, the wall clock read by
    [Date.now()] and the requests sent to the generative service. *)

From Stdlib Require Import List NArith ZArith Bool Lia.
From Stdlib Require Import Ascii String DecimalString.
Import ListNotations.

Set Implicit Arguments.

(* ================================================================== *)
(** * JavaScript strings *)
(* ================================================================== *)

Module JS.

(** A UTF-16 code unit. *)
Definition char := N.

(** A string value: its code units in order. *)
Definition jsstring := list char.

(** An ASCII literal of the source, as code units. *)
Definition lit (s : string) : jsstring :=
  List.map N_of_ascii (list_ascii_of_string s).

Definition char_eqb (a b : char) : bool := N.eqb a b.

Fixpoint eqb (s t : jsstring) : bool :=
  match s, t with
  | [], [] => true
  | a :: s', b :: t' => char_eqb a b && eqb s' t'
  | _, _ => false
  end.

(** [s.startsWith(p)] at position 0. *)
Fixpoint startsWith (p s : jsstring) : bool :=
  match p, s with
  | [], _ => true
  | a :: p', b :: s' => char_eqb a b && startsWith p' s'
  | _ :: _, [] => false
  end.

(** [s.includes(p)]: [p] occurs at some position of [s]. *)
Fixpoint includes (s p : jsstring) : bool :=
  startsWith p s ||
  match s with
  | [] => false
  | _ :: s' => includes s' p
  end.

(** [parts.join(sep)]. *)
Fixpoint join (sep : jsstring) (parts : list jsstring) : jsstring :=
  match parts with
  | [] => []
  | [p] => p
  | p :: rest => p ++ sep ++ join sep rest
  end.

(** Template-literal conversion of a non-negative integer (array lengths). *)
Definition ofNat (n : nat) : jsstring :=
  lit (NilZero.string_of_uint (Nat.to_uint n)).

(** Template-literal conversion of an integer-valued number: plain
    decimal digits, which is what JavaScript prints for integers of
    magnitude below 1e21 (beyond that it switches to exponent form). *)
Definition ofZ (z : Z) : jsstring :=
  lit (NilZero.string_of_int (Z.to_int z)).

(** ** Character classes of the regular expressions

    All regular expressions of the source carry the [i] flag and no [u]
    flag.  Under that flag a code unit at or above 128 never folds onto an
    ASCII letter, so [[a-z]] accepts exactly the ASCII letters of both
    cases. *)

Definition isUpper (c : char) : bool := (65 <=? c)%N && (c <=? 90)%N.
Definition isLower (c : char) : bool := (97 <=? c)%N && (c <=? 122)%N.
Definition isLetter (c : char) : bool := isUpper c || isLower c.
Definition isDigit (c : char) : bool := (48 <=? c)%N && (c <=? 57)%N.

(** [[a-z0-9]] under [i]. *)
Definition isAlnum (c : char) : bool := isLetter c || isDigit c.

(** [\w]: the characters on the word side of [\b]. *)
Definition isWordChar (c : char) : bool := isAlnum c || (c =? 95)%N.

(** Case folding of one code unit against an ASCII pattern character. *)
Definition canon (c : char) : char := if isLower c then (c - 32)%N else c.

Definition char_eqb_ci (a b : char) : bool := N.eqb (canon a) (canon b).

(** A literal of the pattern matched at position 0, ignoring case. *)
Fixpoint startsWith_ci (p s : jsstring) : bool :=
  match p, s with
  | [], _ => true
  | a :: p', b :: s' => char_eqb_ci a b && startsWith_ci p' s'
  | _ :: _, [] => false
  end.

(** [toLowerCase()] on the ASCII letters.  The source applies it to tag
    names captured by [[a-z][a-z0-9]*] and to text later searched for
    ASCII-only words. *)
Definition lowerChar (c : char) : char := if isUpper c then (c + 32)%N else c.
Definition toLowerCase (s : jsstring) : jsstring := List.map lowerChar s.

(** White space and line terminators removed by [trim()]. *)
Definition isSpace (c : char) : bool :=
  ((9 <=? c) && (c <=? 13) || (c =? 32) || (c =? 160) || (c =? 5760) ||
   (8192 <=? c) && (c <=? 8202) || (c =? 8232) || (c =? 8233) ||
   (c =? 8239) || (c =? 8287) || (c =? 12288) || (c =? 65279))%N.

Fixpoint trimStart (s : jsstring) : jsstring :=
  match s with
  | c :: s' => if isSpace c then trimStart s' else s
  | [] => []
  end.

Definition trimEnd (s : jsstring) : jsstring := rev (trimStart (rev s)).
Definition trim (s : jsstring) : jsstring := trimEnd (trimStart s).

(** The longest prefix of [s] whose characters satisfy [p], and the rest
    (a greedy [[...]*]). *)
Fixpoint span (p : char -> bool) (s : jsstring) : jsstring * jsstring :=
  match s with
  | c :: s' =>
      if p c then let (a, b) := span p s' in (c :: a, b) else ([], s)
  | [] => ([], [])
  end.

(** [[^>]*>] at position 0: the number of code units up to and including
    the first ['>'], if there is one. *)
Fixpoint throughGt (s : jsstring) : option nat :=
  match s with
  | [] => None
  | c :: s' =>
      if (c =? 62)%N then Some 1
      else match throughGt s' with
           | Some n => Some (S n)
           | None => None
           end
  end.

(** The position of the first occurrence of the literal [p] in [s],
    ignoring case (a lazy [[\s\S]*?] followed by [p]). *)
Fixpoint find_ci (p s : jsstring) : option nat :=
  if startsWith_ci p s then Some 0
  else match s with
       | [] => None
       | _ :: s' => match find_ci p s' with
                    | Some n => Some (S n)
                    | None => None
                    end
       end.

(** The same, case sensitive. *)
Fixpoint find (p s : jsstring) : option nat :=
  if startsWith p s then Some 0
  else match s with
       | [] => None
       | _ :: s' => match find p s' with
                    | Some n => Some (S n)
                    | None => None
                    end
       end.

(** ** Global matching

    A pattern is given by its matcher at one position: the capture and the
    length of the match.  None of the patterns of the source matches the
    empty string.  [execAll] is the loop
    [while ((match = re.exec(s)) !== null)] of a [g] pattern: the leftmost
    match at or after [lastIndex], then [lastIndex] moves to its end.
    [skip] counts the code units still inside the previous match. *)

Fixpoint execAll (A : Type) (matchAt : jsstring -> option (A * nat))
    (skip : nat) (s : jsstring) : list A :=
  match s with
  | [] => []
  | _ :: s' =>
      match skip with
      | S k => execAll matchAt k s'
      | O =>
          match matchAt s with
          | Some (a, len) => a :: execAll matchAt (pred len) s'
          | None => execAll matchAt 0 s'
          end
      end
  end.

(** [s.replace(re, '')] for a [g] pattern: what is left of [s] once every
    match is removed. *)
Fixpoint removeAll (matchAt : jsstring -> option nat)
    (skip : nat) (s : jsstring) : jsstring :=
  match s with
  | [] => []
  | c :: s' =>
      match skip with
      | S k => removeAll matchAt k s'
      | O =>
          match matchAt s with
          | Some len => removeAll matchAt (pred len) s'
          | None => c :: removeAll matchAt 0 s'
          end
      end
  end.

(** The number of occurrences of one character ([(s.match(/c/g) || []).length]). *)
Definition countChar (c : char) (s : jsstring) : nat :=
  List.length (List.filter (char_eqb c) s).

End JS.

Import JS.

(* ================================================================== *)
(** * Types of [src/types/errors.ts] *)
(* ================================================================== *)

Inductive ErrorType : Type :=
| syntax_error
| runtime_error
| render_error
| missing_dependency
| layout_broken
| incomplete_code
| llm_generation_error.

Definition ErrorType_eqb (a b : ErrorType) : bool :=
  match a, b with
  | syntax_error, syntax_error
  | runtime_error, runtime_error
  | render_error, render_error
  | missing_dependency, missing_dependency
  | layout_broken, layout_broken
  | incomplete_code, incomplete_code
  | llm_generation_error, llm_generation_error => true
  | _, _ => false
  end.

(** The string value of an [ErrorType]. *)
Definition ErrorType_text (t : ErrorType) : jsstring :=
  match t with
  | syntax_error => lit "syntax_error"
  | runtime_error => lit "runtime_error"
  | render_error => lit "render_error"
  | missing_dependency => lit "missing_dependency"
  | layout_broken => lit "layout_broken"
  | incomplete_code => lit "incomplete_code"
  | llm_generation_error => lit "llm_generation_error"
  end.

Record DetectedError : Type := mkDetectedError {
  type : ErrorType;
  message : jsstring;
  line : option Z;
  column : option Z;
  stack : option jsstring;
  timestamp : Z
}.

Inductive FixStrategy : Type :=
| explain_and_fix
| simplify
| add_error_handling
| use_alternatives
| rebuild_from_scratch
| add_fallbacks.

(** The string value of a [FixStrategy]. *)
Definition FixStrategy_text (s : FixStrategy) : jsstring :=
  match s with
  | explain_and_fix => lit "explain_and_fix"
  | simplify => lit "simplify"
  | add_error_handling => lit "add_error_handling"
  | use_alternatives => lit "use_alternatives"
  | rebuild_from_scratch => lit "rebuild_from_scratch"
  | add_fallbacks => lit "add_fallbacks"
  end.

Record FixAttempt : Type := mkFixAttempt {
  attemptNumber : Z;
  strategy : FixStrategy;
  prompt : jsstring;
  result : option jsstring;
  success : bool;
  errors : option (list DetectedError);
  attemptTimestamp : Z        (* the field [timestamp] of [FixAttempt] *)
}.

(* ================================================================== *)
(** * The rendering surface, as far as the detector reads it *)
(* ================================================================== *)

(** What [getComputedStyle(el)] answers for an element. *)
Record CSSStyleDeclaration : Type := {
  display : jsstring;
  width : jsstring;
  height : jsstring
}.

Record Element : Type := {
  textContent : option jsstring;
  computedStyle : CSSStyleDeclaration
}.

Record HTMLImageElement : Type := {
  complete : bool;
  naturalWidth : Z
}.

Record HTMLElement : Type := {
  innerHTML : jsstring;
  innerText : jsstring
}.

Record Document : Type := {
  body : option HTMLElement;              (* [doc.body], possibly null *)
  images : list HTMLImageElement;         (* [doc.querySelectorAll('img')] *)
  allElements : list Element;             (* [doc.querySelectorAll('*')] *)
  defaultView : bool                      (* [doc.defaultView] is not null *)
}.

Record Window : Type := {
  document : option Document
}.

Record HTMLIFrameElement : Type := {
  contentWindow : option Window
}.

(* ================================================================== *)
(** * Objects, world and effects *)
(* ================================================================== *)

(** The fields of [class ErrorDetector]. *)
Record ErrorDetector : Type := mkErrorDetector {
  errorLog : list DetectedError;
  iframe : option HTMLIFrameElement
}.

(** The mutable field of [class SelfHealingEngine]. *)
Record SelfHealingEngine : Type := mkSelfHealingEngine {
  attemptHistory : list FixAttempt
}.

(** [private maxAttempts = 5]; never assigned after construction. *)
Definition maxAttempts : Z := 5.

(** The argument of [invoke('generate_vibe_with_healing', ...)]. *)
Record InvokeArgs : Type := mkInvokeArgs {
  command : jsstring;
  arg_prompt : jsstring;
  is_fix_attempt : bool;
  attempt_number : Z
}.

(** Everything a method can read or change. *)
Record World : Type := mkWorld {
  clock : nat;                 (* how many times [Date.now()] was read *)
  sent : list InvokeArgs;      (* requests made to the generative service *)
  detector : ErrorDetector;
  engine : SelfHealingEngine
}.

Definition set_clock (k : nat) (w : World) : World :=
  mkWorld k (sent w) (detector w) (engine w).
Definition set_sent (l : list InvokeArgs) (w : World) : World :=
  mkWorld (clock w) l (detector w) (engine w).
Definition set_detector (d : ErrorDetector) (w : World) : World :=
  mkWorld (clock w) (sent w) d (engine w).
Definition set_engine (e : SelfHealingEngine) (w : World) : World :=
  mkWorld (clock w) (sent w) (detector w) e.

(** The objects as their constructors leave them. *)
Definition newErrorDetector : ErrorDetector := mkErrorDetector [] None.
Definition newSelfHealingEngine : SelfHealingEngine := mkSelfHealingEngine [].
Definition newWorld : World := mkWorld 0 [] newErrorDetector newSelfHealingEngine.

(** Thrown values. *)
Inductive Exn : Type :=
| Error (msg : jsstring)           (* [new Error(msg)] *)
| TypeError (msg : jsstring)       (* raised by the runtime on [null.x] *)
| Rejected (text : jsstring).      (* a promise rejected with a value whose
                                      conversion to a string is [text] *)

Inductive Outcome (A : Type) : Type :=
| Return (a : A)
| Throw (e : Exn).
Arguments Throw {A} e.

(** A method body: it ends with a value or a thrown exception, and leaves
    a world behind in both cases. *)
Definition M (A : Type) : Type := World -> Outcome A * World.

Definition ret (A : Type) (a : A) : M A := fun w => (Return a, w).

Definition throw (A : Type) (e : Exn) : M A := fun w => (Throw e, w).
Arguments throw {A} e.

Definition bind (A B : Type) (m : M A) (k : A -> M B) : M B :=
  fun w =>
    match m w with
    | (Return a, w') => k a w'
    | (Throw e, w') => (Throw e, w')
    end.

(** [try { m } catch (e) { h e }]. *)
Definition tryCatch (A : Type) (m : M A) (h : Exn -> M A) : M A :=
  fun w =>
    match m w with
    | (Return a, w') => (Return a, w')
    | (Throw e, w') => h e w'
    end.

Declare Scope js_scope.
Delimit Scope js_scope with js.
Notation "x <- m ;; k" := (bind m (fun x => k))
  (at level 61, m at next level, right associativity) : js_scope.
Notation "m ;;; k" := (bind m (fun _ => k))
  (at level 61, right associativity) : js_scope.
Open Scope js_scope.

Definition getDetector : M ErrorDetector := fun w => (Return (detector w), w).
Definition putDetector (d : ErrorDetector) : M unit :=
  fun w => (Return tt, set_detector d w).
Definition getEngine : M SelfHealingEngine := fun w => (Return (engine w), w).
Definition putEngine (e : SelfHealingEngine) : M unit :=
  fun w => (Return tt, set_engine e w).

(** A loop over an array, threading the variables it updates. *)
Fixpoint forEach (A B : Type) (f : B -> A -> M B) (l : list A) (b : B) : M B :=
  match l with
  | [] => ret b
  | a :: l' => b' <- f b a ;; forEach f l' b'
  end.

(* ================================================================== *)
(** * [class ErrorDetector] *)
(* ================================================================== *)

(** ** The regular expressions of [detectSyntaxErrors] *)

(** [\b] right after a word character: the input ends or a non-word
    character follows. *)
Definition wordBoundary (rest : jsstring) : bool :=
  match rest with
  | [] => true
  | d :: _ => negb (isWordChar d)
  end.

(** The pattern [tagPattern], [<] [(] [[a-z][a-z0-9]*] [)] [\b[^>]*>] with
    flags [gi], at one position: the captured name and the length of the
    match. *)
Definition openTagAt (s : jsstring) : option (jsstring * nat) :=
  match s with
  | lt :: c :: s1 =>
      if (lt =? 60)%N && isLetter c then
        let (name, s2) := span isAlnum s1 in
        if wordBoundary s2 then
          match throughGt s2 with
          | Some n => Some (c :: name, 2 + List.length name + n)
          | None => None
          end
        else None
      else None
  | _ => None
  end.

(** The pattern [closingPattern], [<\/] [(] [[a-z][a-z0-9]*] [)] [>] with
    flags [gi], at one position. *)
Definition closingTagAt (s : jsstring) : option (jsstring * nat) :=
  match s with
  | lt :: sl :: c :: s1 =>
      if (lt =? 60)%N && (sl =? 47)%N && isLetter c then
        let (name, s2) := span isAlnum s1 in
        match s2 with
        | gt :: _ =>
            if (gt =? 62)%N then Some (c :: name, 4 + List.length name)
            else None
        | [] => None
        end
      else None
  | _ => None
  end.

(** [/<script[^>]*>([\s\S]*?)<\/script>/gi] at one position: the matched
    text (what [String.prototype.match] collects) and its length. *)
Definition scriptAt (s : jsstring) : option (jsstring * nat) :=
  if startsWith_ci (lit "<script") s then
    let s1 := skipn 7 s in
    match throughGt s1 with
    | Some n =>
        match find_ci (lit "</script>") (skipn n s1) with
        | Some m => let len := 7 + n + m + 9 in Some (firstn len s, len)
        | None => None
        end
    | None => None
    end
  else None.

(** [/<script[^>]*>|<\/script>/gi] at one position: the length of the match. *)
Definition scriptTagAt (s : jsstring) : option nat :=
  let alt1 :=
    if startsWith_ci (lit "<script") s then
      match throughGt (skipn 7 s) with
      | Some n => Some (7 + n)
      | None => None
      end
    else None in
  match alt1 with
  | Some n => Some n
  | None => if startsWith_ci (lit "</script>") s then Some 9 else None
  end.

(** ** Arrays of tag names *)

Definition voidTags : list jsstring :=
  [lit "br"; lit "hr"; lit "img"; lit "input"; lit "meta"; lit "link"].

(** [tags.includes(tag)]. *)
Definition includesTag (tags : list jsstring) (tag : jsstring) : bool :=
  existsb (JS.eqb tag) tags.

(** [tags.lastIndexOf(tag)]; [None] stands for the answer [-1]. *)
Fixpoint lastIndexOf (tags : list jsstring) (tag : jsstring) : option nat :=
  match tags with
  | [] => None
  | x :: rest =>
      match lastIndexOf rest tag with
      | Some i => Some (S i)
      | None => if JS.eqb x tag then Some 0 else None
      end
  end.

(** [tags.splice(i, 1)]: the array without its element at [i]. *)
Definition splice1 (i : nat) (tags : list jsstring) : list jsstring :=
  firstn i tags ++ skipn (S i) tags.

(** The first [while] loop: every opening tag that is not a void tag, in
    lower case, in document order. *)
Definition collectOpenTags (code : jsstring) : list jsstring :=
  List.filter (fun tag => negb (includesTag voidTags tag))
    (List.map toLowerCase (execAll openTagAt 0 code)).

(** The closing tags met by the second [while] loop, in lower case. *)
Definition closingTags (code : jsstring) : list jsstring :=
  List.map toLowerCase (execAll closingTagAt 0 code).

(** [code.match(/<script...<\/script>/gi)]; the empty list stands for [null]. *)
Definition scriptMatches (code : jsstring) : list jsstring :=
  execAll scriptAt 0 code.

Section Detector.

(** [Date.now()]: the value of its [k]-th reading. *)
Variable now : nat -> Z.

Definition Date_now : M Z :=
  fun w => (Return (now (clock w)), set_clock (S (clock w)) w).

(** [errors.push({ type, message, timestamp: Date.now() })] on the local
    array [errors]. *)
Definition push (errors : list DetectedError) (ty : ErrorType)
    (msg : jsstring) : M (list DetectedError) :=
  t <- Date_now ;;
  ret (errors ++ [mkDetectedError ty msg None None None t]).

(** [if (cond) { errors.push(...) }]. *)
Definition pushIf (cond : bool) (errors : list DetectedError)
    (ty : ErrorType) (msg : jsstring) : M (list DetectedError) :=
  if cond then push errors ty msg else ret errors.

(** One turn of the second [while] loop. *)
Definition closeStep (st : list jsstring * list DetectedError)
    (tag : jsstring) : M (list jsstring * list DetectedError) :=
  let (openTags, errors) := st in
  match lastIndexOf openTags tag with
  | None =>
      errors <- push errors syntax_error
                  (lit "Unexpected closing tag: </" ++ tag ++ lit ">") ;;
      ret (openTags, errors)
  | Some lastOpen => ret (splice1 lastOpen openTags, errors)
  end.

(** The callback of [scriptMatches.forEach]. *)
Definition scriptStep (errors : list DetectedError) (script : jsstring)
    : M (list DetectedError) :=
  let jsCode := removeAll scriptTagAt 0 script in
  errors <- pushIf (includes jsCode (lit "function (")
                    && negb (includes jsCode (lit ")")))
              errors syntax_error (lit "Incomplete function declaration") ;;
  let openBraces := countChar 123%N jsCode in
  let closeBraces := countChar 125%N jsCode in
  errors <- pushIf (negb (Nat.eqb openBraces closeBraces))
              errors syntax_error
              (lit "Unmatched braces: " ++ ofNat openBraces ++ lit " open, "
               ++ ofNat closeBraces ++ lit " close") ;;
  let openParens := countChar 40%N jsCode in
  let closeParens := countChar 41%N jsCode in
  pushIf (negb (Nat.eqb openParens closeParens))
    errors syntax_error
    (lit "Unmatched parentheses: " ++ ofNat openParens ++ lit " open, "
     ++ ofNat closeParens ++ lit " close").

(** Stage 1: static analysis, before rendering. *)
Definition detectSyntaxErrors (code : jsstring) : M (list DetectedError) :=
  let errors := [] in
  errors <- pushIf (negb (includes code (lit "<!DOCTYPE html>")))
              errors syntax_error (lit "Missing DOCTYPE declaration") ;;
  errors <- pushIf (negb (includes code (lit "<html")))
              errors syntax_error (lit "Missing <html> tag") ;;
  errors <- pushIf (negb (includes code (lit "</html>")))
              errors incomplete_code (lit "Missing closing </html> tag") ;;
  let openTags := collectOpenTags code in
  st <- forEach closeStep (closingTags code) (openTags, errors) ;;
  let (openTags, errors) := st : list jsstring * list DetectedError in
  errors <- pushIf (Nat.ltb 0 (List.length openTags))
              errors syntax_error
              (lit "Unclosed tags: " ++ join (lit ", ") openTags) ;;
  errors <- forEach scriptStep (scriptMatches code) errors ;;
  errors <- pushIf (negb (includes code (lit "</html>")))
              errors incomplete_code
              (lit "HTML document appears incomplete (missing </html>)") ;;
  errors <- pushIf (negb (includes code (lit "<!DOCTYPE html>")))
              errors syntax_error (lit "Missing DOCTYPE declaration") ;;
  errors <- pushIf (negb (includes code (lit "<html")))
              errors syntax_error (lit "Missing <html> tag") ;;
  errors <- pushIf (negb (includes code (lit "<body")))
              errors syntax_error (lit "Missing <body> tag") ;;
  ret errors.

(** ** Stage 2: the listeners installed by [monitorIframe] *)

(** [this.iframe = iframe]; the listeners themselves are the three
    operations below, run by the surface whenever it reports something. *)
Definition monitorIframe (f : HTMLIFrameElement) : M unit :=
  this <- getDetector ;;
  putDetector (mkErrorDetector (errorLog this) (Some f)).

(** [this.errorLog.push(e)]. *)
Definition logPush (e : DetectedError) : M unit :=
  this <- getDetector ;;
  putDetector (mkErrorDetector (errorLog this ++ [e]) (iframe this)).

(** The replacement of [console.error] inside the frame. *)
Definition onConsoleError (args : list jsstring) : M unit :=
  t <- Date_now ;;
  logPush (mkDetectedError runtime_error (join (lit " ") args)
             None None None t).

Record ErrorEvent : Type := {
  ev_message : jsstring;
  lineno : Z;
  colno : Z;
  error_stack : option jsstring           (* [event.error?.stack] *)
}.

(** The ['error'] listener. *)
Definition onError (event : ErrorEvent) : M unit :=
  t <- Date_now ;;
  logPush (mkDetectedError runtime_error (ev_message event)
             (Some (lineno event)) (Some (colno event))
             (error_stack event) t).

(** The ['unhandledrejection'] listener; [reason] is the text of
    [event.reason]. *)
Definition onUnhandledRejection (reason : jsstring) : M unit :=
  t <- Date_now ;;
  logPush (mkDetectedError runtime_error
             (lit "Unhandled Promise Rejection: " ++ reason)
             None None None t).

(** ** Stage 3: inspection of the rendered output *)

(** [this.iframe?.contentWindow?.document]. *)
Definition reachableDocument (this : ErrorDetector) : option Document :=
  match iframe this with
  | Some f =>
      match contentWindow f with
      | Some win => document win
      | None => None
      end
  | None => None
  end.

(** The filter that selects the elements counted as unstyled. *)
Definition isUnstyled (doc : Document) (el : Element) : bool :=
  if defaultView doc then
    let style := computedStyle el in
    JS.eqb (display style) (lit "inline")
    && JS.eqb (width style) (lit "auto")
    && JS.eqb (height style) (lit "auto")
    && match textContent el with
       | Some text => Nat.eqb (List.length (trim text)) 0
       | None => true
       end
  else false.

(** [async analyzeRenderedOutput()]; a rejected promise is a [Throw]. *)
Definition analyzeRenderedOutput : M (list DetectedError) :=
  let errors := [] in
  this <- getDetector ;;
  match reachableDocument this with
  | None =>
      errors <- push errors render_error
                  (lit "Failed to render content in iframe") ;;
      ret errors
  | Some doc =>
      errors <- pushIf
                  match body doc with
                  | None => true
                  | Some b => Nat.eqb (List.length (trim (innerHTML b))) 0
                  end
                  errors render_error
                  (lit "Document body is empty - nothing rendered") ;;
      match body doc with
      | None =>
          (* [doc.body.innerText] with [doc.body] null *)
          throw (TypeError
                   (lit "Cannot read properties of null (reading 'innerText')"))
      | Some b =>
          let bodyText := toLowerCase (innerText b) in
          errors <- pushIf (includes bodyText (lit "uncaught")
                            || includes bodyText (lit "syntaxerror"))
                      errors runtime_error
                      (lit "Error messages visible in rendered output") ;;
          let failedImages :=
            List.filter
              (fun img => negb (complete img) || (naturalWidth img =? 0)%Z)
              (images doc) in
          errors <- pushIf (Nat.ltb 0 (List.length failedImages))
                      errors missing_dependency
                      (ofNat (List.length failedImages)
                       ++ lit " image(s) failed to load") ;;
          let styledElements := allElements doc in
          let unstyledElements :=
            List.filter (isUnstyled doc) styledElements in
          (* [unstyled.length > styled.length * 0.5], exact on lengths *)
          errors <- pushIf (Nat.ltb (List.length styledElements)
                              (2 * List.length unstyledElements))
                      errors layout_broken
                      (lit "Many elements appear unstyled - possible CSS issues") ;;
          ret errors
      end
  end.

Definition getErrors : M (list DetectedError) :=
  this <- getDetector ;; ret (errorLog this).

Definition clearErrors : M unit :=
  this <- getDetector ;;
  putDetector (mkErrorDetector [] (iframe this)).

Definition hasCriticalErrors : M bool :=
  this <- getDetector ;;
  ret (existsb
         (fun error =>
            ErrorType_eqb (type error) syntax_error
            || ErrorType_eqb (type error) incomplete_code
            || ErrorType_eqb (type error) render_error)
         (errorLog this)).

End Detector.

(* ================================================================== *)
(** * [class SelfHealingEngine] *)
(* ================================================================== *)

(** The conversion of a caught value to a string, as a template literal
    does it. *)
Definition Exn_text (e : Exn) : jsstring :=
  match e with
  | Error msg => lit "Error: " ++ msg
  | TypeError msg => lit "TypeError: " ++ msg
  | Rejected text => text
  end.

(** The pattern of [requestFix], a fence opened by three backquotes and
    [html\n] and closed by the next three backquotes, at one position: the
    captured text between them. *)
Definition fenceAt (s : jsstring) : option jsstring :=
  if startsWith (lit "```html" ++ [10%N]) s then
    let inner := skipn 8 s in
    match find (lit "```") inner with
    | Some m => Some (firstn m inner)
    | None => None
    end
  else None.

(** [s.match(re)] without the [g] flag: the leftmost position that
    matches. *)
Fixpoint firstMatch (A : Type) (matchAt : jsstring -> option A)
    (s : jsstring) : option A :=
  match matchAt s with
  | Some a => Some a
  | None =>
      match s with
      | [] => None
      | _ :: s' => firstMatch matchAt s'
      end
  end.

(** [array[i] = f(array[i])] for an index inside the array. *)
Fixpoint updateAt (A : Type) (i : nat) (f : A -> A) (l : list A) : list A :=
  match l, i with
  | [], _ => []
  | a :: l', O => f a :: l'
  | a :: l', S j => a :: updateAt j f l'
  end.

(** [attempt.success = true]. *)
Definition setSuccess (a : FixAttempt) : FixAttempt :=
  mkFixAttempt (attemptNumber a) (strategy a) (prompt a) (result a)
    true (errors a) (attemptTimestamp a).

Definition selectStrategy (_errors : list DetectedError)
    (attemptNumber : Z) : FixStrategy :=
  if (attemptNumber =? 1)%Z then explain_and_fix
  else if (attemptNumber =? 2)%Z then add_error_handling
  else if (attemptNumber =? 3)%Z then simplify
  else if (attemptNumber =? 4)%Z then use_alternatives
  else rebuild_from_scratch.

Definition nl : jsstring := [10%N].

(** [lines.join('\n')]. *)
Definition unlines (lines : list jsstring) : jsstring := join nl lines.

Definition getStrategyInstructions (strategy : FixStrategy) : jsstring :=
  match strategy with
  | explain_and_fix =>
      unlines [ [];
        lit "- Analyze each error carefully";
        lit "- Fix the specific issues";
        lit "- Ensure all syntax is correct";
        lit "- Return complete, working code" ]
  | add_error_handling =>
      unlines [ [];
        lit "- Wrap JavaScript in try-catch blocks";
        lit "- Add defensive checks (if element exists before using it)";
        lit "- Provide user-friendly error messages";
        lit "- Make the app resilient to failures" ]
  | simplify =>
      unlines [ [];
        lit "- Remove complex features that might be causing issues";
        lit "- Use simpler HTML/CSS/JS patterns";
        lit "- Focus on core functionality";
        lit "- Reduce dependencies" ]
  | use_alternatives =>
      unlines [ [];
        lit "- Try a different technical approach";
        lit "- Use vanilla JS instead of complex patterns";
        lit "- Avoid features that caused previous errors";
        lit "- Find simpler ways to achieve the same result" ]
  | rebuild_from_scratch =>
      unlines [ [];
        lit "- Start fresh with a simpler version";
        lit "- Focus on getting SOMETHING working first";
        lit "- Use the most basic, reliable patterns";
        lit "- Prioritize functionality over features";
        lit "- Make it bulletproof" ]
  | add_fallbacks =>
      unlines [ [];
        lit "- Add polyfills for missing features";
        lit "- Provide fallback content for failed loads";
        lit "- Use defensive programming";
        lit "- Ensure graceful degradation" ]
  end.

(** The wrench sign U+1F527 that opens the prompt, as a surrogate pair. *)
Definition wrench : jsstring := [55357%N; 56615%N].

Definition buildFixPrompt (originalPrompt brokenCode : jsstring)
    (errors : list DetectedError) (strategy : FixStrategy)
    (attemptNumber : Z) : jsstring :=
  let errorSummary :=
    unlines
      (List.map
         (fun e => lit "- " ++ ErrorType_text (type e) ++ lit ": " ++ message e)
         errors) in
  let strategyInstructions := getStrategyInstructions strategy in
  trim (unlines [ [];
    wrench ++ lit " CODE FIXING ATTEMPT #" ++ ofZ attemptNumber;
    [];
    lit "ORIGINAL REQUEST:";
    originalPrompt;
    [];
    lit "PREVIOUS CODE (WITH ERRORS):";
    lit "```html";
    brokenCode;
    lit "```";
    [];
    lit "DETECTED ERRORS:";
    errorSummary;
    [];
    lit "FIX STRATEGY: " ++ FixStrategy_text strategy;
    strategyInstructions;
    [];
    lit "CRITICAL REQUIREMENTS:";
    lit "1. Output COMPLETE, WORKING HTML (must include <!DOCTYPE html>, <html>, <head>, <body>, closing tags)";
    lit "2. All syntax must be valid (check braces, quotes, tags)";
    lit "3. Test your code mentally before responding";
    lit "4. Make it work - no placeholders or TODOs";
    lit "5. If external resources might fail, use fallbacks or inline everything";
    [];
    lit "Now provide the FIXED, COMPLETE code:";
    [] ]).

Section Engine.

Variable now : nat -> Z.

(** The generative service behind [invoke]: given the requests made so
    far and the new one, its response text ([inl]) or the text of the
    value its promise is rejected with ([inr]). *)
Variable service : list InvokeArgs -> InvokeArgs -> jsstring + jsstring.

(** [await invoke<string>(command, args)]: the request is made, then the
    promise resolves with the response or is rejected. *)
Definition invoke (args : InvokeArgs) : M jsstring :=
  fun w =>
    (match service (sent w) args with
     | inl response => Return response
     | inr text => Throw (Rejected text)
     end,
     set_sent (sent w ++ [args]) w).

Definition getAttemptHistory : M (list FixAttempt) :=
  this <- getEngine ;; ret (attemptHistory this).

Definition clearHistory : M unit :=
  putEngine (mkSelfHealingEngine []).

Definition getAttemptCount : M nat :=
  this <- getEngine ;; ret (List.length (attemptHistory this)).

Definition hasReachedMaxAttempts : M bool :=
  this <- getEngine ;;
  ret (maxAttempts <=? Z.of_nat (List.length (attemptHistory this)))%Z.

Definition markLastAttemptSuccess : M unit :=
  this <- getEngine ;;
  let history := attemptHistory this in
  if Nat.ltb 0 (List.length history) then
    putEngine (mkSelfHealingEngine
                 (updateAt (List.length history - 1) setSuccess history))
  else ret tt.

Definition requestFix (fixPrompt : jsstring) : M jsstring :=
  tryCatch
    (count <- getAttemptCount ;;
     response <- invoke (mkInvokeArgs (lit "generate_vibe_with_healing")
                           fixPrompt true (Z.of_nat count + 1)) ;;
     let codeMatch := firstMatch fenceAt response in
     match codeMatch with
     | Some code => ret code
     | None => ret response
     end)
    (fun error =>
       throw (Error (lit "LLM fix request failed: " ++ Exn_text error))).

Definition healCode (originalPrompt brokenCode : jsstring)
    (errors : list DetectedError) (attemptNumber : Z) : M jsstring :=
  if (maxAttempts <? attemptNumber)%Z then
    throw (Error (lit "Max healing attempts reached. Code could not be fixed."))
  else
    let strategy := selectStrategy errors attemptNumber in
    let fixPrompt :=
      buildFixPrompt originalPrompt brokenCode errors strategy attemptNumber in
    fixedCode <- requestFix fixPrompt ;;
    t <- Date_now now ;;
    this <- getEngine ;;
    putEngine (mkSelfHealingEngine
                 (attemptHistory this
                  ++ [mkFixAttempt attemptNumber strategy fixPrompt
                        (Some fixedCode) false (Some errors) t])) ;;;
    ret fixedCode.

End Engine.

(* ================================================================== *)
(** * What a run of Stage 1 reports *)
(* ================================================================== *)

(** A defect before [Date.now()] is read for it: its kind and message. *)
Definition Report : Type := ErrorType * jsstring.

(** The defects pushed for the reports [l] when the clock has been read
    [k] times before. *)
Fixpoint stamp (now : nat -> Z) (k : nat) (l : list Report)
    : list DetectedError :=
  match l with
  | [] => []
  | (ty, msg) :: l' =>
      mkDetectedError ty msg None None None (now k) :: stamp now (S k) l'
  end.

Definition reportIf (cond : bool) (ty : ErrorType) (msg : jsstring)
    : list Report :=
  if cond then [(ty, msg)] else [].

(** The effect of one closing tag on the array [openTags]. *)
Definition popTag (openTags : list jsstring) (tag : jsstring)
    : list jsstring :=
  match lastIndexOf openTags tag with
  | Some lastOpen => splice1 lastOpen openTags
  | None => openTags
  end.

(** The array [openTags] once the second loop has gone through the
    closing tags [closing]. *)
Definition popAll (openTags closing : list jsstring) : list jsstring :=
  fold_left popTag closing openTags.

(** The closing tags that found no open tag when their turn came. *)
Fixpoint unmatchedClosings (openTags closing : list jsstring)
    : list jsstring :=
  match closing with
  | [] => []
  | tag :: rest =>
      match lastIndexOf openTags tag with
      | None => tag :: unmatchedClosings openTags rest
      | Some lastOpen => unmatchedClosings (splice1 lastOpen openTags) rest
      end
  end.

(** The tags left open at the end of the scan of [code]. *)
Definition unclosedTags (code : jsstring) : list jsstring :=
  popAll (collectOpenTags code) (closingTags code).

Definition unexpectedClosing (tag : jsstring) : Report :=
  (syntax_error, lit "Unexpected closing tag: </" ++ tag ++ lit ">").

Definition unclosedMessage (tags : list jsstring) : jsstring :=
  lit "Unclosed tags: " ++ join (lit ", ") tags.

Definition scriptReport (script : jsstring) : list Report :=
  let jsCode := removeAll scriptTagAt 0 script in
  reportIf (includes jsCode (lit "function (")
            && negb (includes jsCode (lit ")")))
    syntax_error (lit "Incomplete function declaration")
  ++ reportIf (negb (Nat.eqb (countChar 123%N jsCode) (countChar 125%N jsCode)))
       syntax_error
       (lit "Unmatched braces: " ++ ofNat (countChar 123%N jsCode)
        ++ lit " open, " ++ ofNat (countChar 125%N jsCode) ++ lit " close")
  ++ reportIf (negb (Nat.eqb (countChar 40%N jsCode) (countChar 41%N jsCode)))
       syntax_error
       (lit "Unmatched parentheses: " ++ ofNat (countChar 40%N jsCode)
        ++ lit " open, " ++ ofNat (countChar 41%N jsCode) ++ lit " close").

(** The reports of the three checks that open [detectSyntaxErrors]. *)
Definition headReport (code : jsstring) : list Report :=
  reportIf (negb (includes code (lit "<!DOCTYPE html>")))
    syntax_error (lit "Missing DOCTYPE declaration")
  ++ reportIf (negb (includes code (lit "<html")))
       syntax_error (lit "Missing <html> tag")
  ++ reportIf (negb (includes code (lit "</html>")))
       incomplete_code (lit "Missing closing </html> tag").

(** The reports of the tag-balance scan. *)
Definition tagReport (code : jsstring) : list Report :=
  List.map unexpectedClosing
    (unmatchedClosings (collectOpenTags code) (closingTags code))
  ++ reportIf (Nat.ltb 0 (List.length (unclosedTags code)))
       syntax_error (unclosedMessage (unclosedTags code)).

(** The reports of the four checks that close [detectSyntaxErrors]. *)
Definition tailReport (code : jsstring) : list Report :=
  reportIf (negb (includes code (lit "</html>")))
    incomplete_code (lit "HTML document appears incomplete (missing </html>)")
  ++ reportIf (negb (includes code (lit "<!DOCTYPE html>")))
       syntax_error (lit "Missing DOCTYPE declaration")
  ++ reportIf (negb (includes code (lit "<html")))
       syntax_error (lit "Missing <html> tag")
  ++ reportIf (negb (includes code (lit "<body")))
       syntax_error (lit "Missing <body> tag").

(** Everything a run reports, in the order of the pushes. *)
Definition report (code : jsstring) : list Report :=
  headReport code ++ tagReport code
  ++ flat_map scriptReport (scriptMatches code) ++ tailReport code.

(** What is left of a defect once its clock reading is set aside. *)
Definition view (e : DetectedError)
    : ErrorType * jsstring * option Z * option Z * option jsstring :=
  (type e, message e, line e, column e, stack e).

(** Recognisers of defects by what they report. *)
Definition isIncomplete (e : DetectedError) : bool :=
  ErrorType_eqb (type e) incomplete_code.

Definition isUnclosedDefect (e : DetectedError) : bool :=
  startsWith (lit "Unclosed tags: ") (message e).

Definition isUnexpectedClosingDefect (e : DetectedError) : bool :=
  startsWith (lit "Unexpected closing tag: </") (message e).

(** The same recognisers on reports. *)
Definition incompleteReport (r : Report) : bool :=
  ErrorType_eqb (fst r) incomplete_code.

Definition unclosedReport (r : Report) : bool :=
  startsWith (lit "Unclosed tags: ") (snd r).

Definition unexpectedClosingReport (r : Report) : bool :=
  startsWith (lit "Unexpected closing tag: </") (snd r).

(* ================================================================== *)
(** * Healing sessions *)
(* ================================================================== *)

(** The worlds a healing session can be in before its last attempt is
    marked: the engine starts with an empty history (a new engine, or one
    just cleared), [healCode] is called any number of times with any
    arguments and any outcome, and in between anything may happen that
    leaves the engine alone (detection, listeners, the clock). *)
Inductive afterHeals (now : nat -> Z)
    (service : list InvokeArgs -> InvokeArgs -> jsstring + jsstring)
    : World -> Prop :=
| afterHeals_start w :
    attemptHistory (engine w) = [] -> afterHeals now service w
| afterHeals_heal w originalPrompt brokenCode errors attemptNumber :
    afterHeals now service w ->
    afterHeals now service
      (snd (healCode now service originalPrompt brokenCode errors
              attemptNumber w))
| afterHeals_other w w' :
    afterHeals now service w -> engine w' = engine w ->
    afterHeals now service w'.

(** The request [requestFix] sends for the prompt [fixPrompt]. *)
Definition fixRequest (fixPrompt : jsstring) (w : World) : InvokeArgs :=
  mkInvokeArgs (lit "generate_vibe_with_healing") fixPrompt true
    (Z.of_nat (List.length (attemptHistory (engine w))) + 1).

(** The code [requestFix] takes out of a response. *)
Definition extractCode (response : jsstring) : jsstring :=
  match firstMatch fenceAt response with
  | Some code => code
  | None => response
  end.

(* ================================================================== *)
(** * [SelfHealingPreview]: the validate-and-heal loop *)
(* ================================================================== *)

(** The array held by the state variable [fixAttempts]: the empty array it
    starts with, or the very array of the engine, which
    [getAttemptHistory] hands out without copying. *)
Inductive FixAttemptsRef : Type :=
| initialArray
| engineHistory.

(** The state variables and refs of the component.  A state variable
    holds the value last handed to its setter; what React does with a new
    value (rendering, running the effect on [currentCode] again) is not
    part of the functions modelled here. *)
Record Preview : Type := mkPreview {
  currentCode : jsstring;
  isHealing : bool;
  healingStatus : jsstring;
  shownErrors : list DetectedError;       (* the state variable [errors] *)
  fixAttempts : FixAttemptsRef;
  attemptCount : Z                        (* [attemptCount.current] *)
}.

(** The component as it mounts with the prop [initialCode]. *)
Definition newPreview (initialCode : jsstring) : Preview :=
  mkPreview initialCode false [] [] initialArray 0.

(** How a pass of the loop ends. *)
Inductive PassOutcome : Type :=
| fixAttempted                      (* [attemptFix] was called *)
| renderScheduled                   (* [setTimeout] was armed *)
| noFrame                           (* [iframeRef.current] was null *)
| fixComplete (code : jsstring) (attempts : list FixAttempt)
                                    (* [onFixComplete(code, attempts)] *)
| inspectionFailed (e : Exn).       (* the timer callback rejected *)

Definition magnifier : jsstring := [55357%N; 56589%N].     (* U+1F50D *)
Definition checkMark : jsstring := [9989%N].                (* U+2705 *)
Definition warningSign : jsstring := [9888%N; 65039%N].     (* U+26A0 U+FE0F *)
Definition sparkles : jsstring := [10024%N].                (* U+2728 *)
Definition crossMark : jsstring := [10060%N].               (* U+274C *)

Definition incompleteMessage : jsstring :=
  lit "Code appears to be incomplete or malformed".

Section SelfHealingPreview.

Variable now : nat -> Z.
Variable service : list InvokeArgs -> InvokeArgs -> jsstring + jsstring.

(** The prop [originalPrompt]. *)
Variable originalPrompt : jsstring.

Definition attemptFix (brokenCode : jsstring)
    (detectedErrors : list DetectedError) (st : Preview * World)
    : Preview * World :=
  let (p, w) := st in
  let count := (attemptCount p + 1)%Z in
  let status :=
    wrench ++ lit " Fix attempt " ++ ofZ count ++ lit "/5..." in
  match healCode now service originalPrompt brokenCode detectedErrors
          count w with
  | (Return fixedCode, w1) =>
      (mkPreview fixedCode true status (shownErrors p) engineHistory count,
       snd (clearErrors w1))
  | (Throw _, w1) =>
      (mkPreview (currentCode p) false
         (crossMark ++ lit " Could not fix after " ++ ofZ count
          ++ lit " attempts")
         (shownErrors p) engineHistory count,
       w1)
  end.

(** [validateAndHeal(code)] up to the point where it returns or arms the
    timer. *)
Definition validateAndHeal (code : jsstring) (st : Preview * World)
    : PassOutcome * (Preview * World) :=
  let (p, w) := st in
  let p := mkPreview (currentCode p) (isHealing p)
             (magnifier ++ lit " Checking code...")
             (shownErrors p) (fixAttempts p) (attemptCount p) in
  if Nat.ltb (List.length code) 50 then
    let shown := mkDetectedError incomplete_code incompleteMessage
                   None None None (now (clock w)) in
    let passed := mkDetectedError incomplete_code incompleteMessage
                    None None None (now (S (clock w))) in
    let p := mkPreview (currentCode p) (isHealing p) (healingStatus p)
               [shown] (fixAttempts p) (attemptCount p) in
    (fixAttempted,
     attemptFix code [passed] (p, set_clock (S (S (clock w))) w))
  else
    match detectSyntaxErrors now code w with
    | (Throw e, w1) => (inspectionFailed e, (p, w1))
    | (Return syntaxErrors, w1) =>
        if Nat.ltb 0 (List.length syntaxErrors) then
          let p := mkPreview (currentCode p) (isHealing p) (healingStatus p)
                     syntaxErrors (fixAttempts p) (attemptCount p) in
          (fixAttempted, attemptFix code syntaxErrors (p, w1))
        else
          (renderScheduled,
           (mkPreview (currentCode p) (isHealing p)
              (checkMark ++ lit " Syntax looks good, rendering...")
              (shownErrors p) (fixAttempts p) (attemptCount p),
            w1))
    end.

(** The callback armed by [validateAndHeal(code)], run once the timer
    fires; [frameMounted] tells whether [iframeRef.current] is set. *)
Definition renderCheck (frameMounted : bool) (code : jsstring)
    (st : Preview * World) : PassOutcome * (Preview * World) :=
  let (p, w) := st in
  if negb frameMounted then (noFrame, st)
  else
    let runtimeErrors := errorLog (detector w) in
    match analyzeRenderedOutput now w with
    | (Throw e, w1) => (inspectionFailed e, (p, w1))
    | (Return renderErrors, w1) =>
        let allErrors := runtimeErrors ++ renderErrors in
        if Nat.ltb 0 (List.length allErrors) then
          let p := mkPreview (currentCode p) (isHealing p)
                     (warningSign ++ lit " Errors detected, fixing...")
                     allErrors (fixAttempts p) (attemptCount p) in
          (fixAttempted, attemptFix code allErrors (p, w1))
        else
          let w2 := snd (markLastAttemptSuccess w1) in
          (fixComplete code (attemptHistory (engine w2)),
           (mkPreview (currentCode p) false
              (sparkles ++ lit " Code is working perfectly!")
              (shownErrors p) (fixAttempts p) (attemptCount p),
            w2))
    end.

End SelfHealingPreview.

(* ================================================================== *)
(** * [src/store/chatStore.ts] *)
(* ================================================================== *)

Module Chat.

Inductive Role : Type := user | assistant.

Record Message : Type := mkMessage {
  id : jsstring;
  role : Role;
  content : jsstring;
  code : option jsstring;
  timestamp : Z
}.

Inductive ViewMode : Type := codeMode | previewMode.

(** The data of the store. *)
Record Store : Type := mkStore {
  messages : list Message;
  isLoading : bool;
  viewMode : ViewMode;
  currentCode : jsstring;
  isModelInitialized : bool
}.

Definition initialStore : Store := mkStore [] false codeMode [] false.

(** [addMessage(message)]; [uuid] is what [crypto.randomUUID()] answers
    and [t] what [Date.now()] answers. *)
Definition addMessage (uuid : jsstring) (t : Z)
    (message : Role * jsstring * option jsstring) (state : Store) : Store :=
  let '(r, c, k) := message in
  mkStore (messages state ++ [mkMessage uuid r c k t])
    (isLoading state) (viewMode state) (currentCode state)
    (isModelInitialized state).

(** The code a message content yields, if any: the first fenced block,
    trimmed, when it holds both markers. *)
Definition validCode (text : jsstring) : option jsstring :=
  match firstMatch fenceAt text with
  | Some inner =>
      let extractedCode := trim inner in
      if includes extractedCode (lit "<!DOCTYPE html>")
         && includes extractedCode (lit "</html>")
      then Some extractedCode
      else None
  | None => None
  end.

(** The body of the updater on the last message, when there is one. *)
Definition appendToMessage (chunk : jsstring) (lastMessage : Message)
    : Message * option jsstring :=
  match role lastMessage with
  | assistant =>
      let text := content lastMessage ++ chunk in
      match validCode text with
      | Some extractedCode =>
          (mkMessage (id lastMessage) assistant text (Some extractedCode)
             (timestamp lastMessage),
           Some extractedCode)
      | None =>
          (mkMessage (id lastMessage) assistant text (code lastMessage)
             (timestamp lastMessage),
           None)
      end
  | user => (lastMessage, None)
  end.

(** [updateLastMessage(content)].  The call of [setCurrentCode] made
    inside the updater takes effect before the updater's own result
    [{ messages }] is merged into the store, so both changes are kept. *)
Definition updateLastMessage (chunk : jsstring) (state : Store) : Store :=
  match rev (messages state) with
  | [] => state
  | lastMessage :: earlier =>
      let (updated, newCode) := appendToMessage chunk lastMessage in
      mkStore (rev earlier ++ [updated])
        (isLoading state) (viewMode state)
        match newCode with
        | Some extractedCode => extractedCode
        | None => currentCode state
        end
        (isModelInitialized state)
  end.

Definition setLoading (loading : bool) (state : Store) : Store :=
  mkStore (messages state) loading (viewMode state) (currentCode state)
    (isModelInitialized state).

Definition setViewMode (mode : ViewMode) (state : Store) : Store :=
  mkStore (messages state) (isLoading state) mode (currentCode state)
    (isModelInitialized state).

Definition setCurrentCode (code : jsstring) (state : Store) : Store :=
  mkStore (messages state) (isLoading state) (viewMode state) code
    (isModelInitialized state).

Definition setModelInitialized (initialized : bool) (state : Store) : Store :=
  mkStore (messages state) (isLoading state) (viewMode state)
    (currentCode state) initialized.

Definition clearMessages (state : Store) : Store :=
  mkStore [] (isLoading state) codeMode [] (isModelInitialized state).

End Chat.

(* ================================================================== *)
(** * Further recognisers and reports *)
(* ================================================================== *)

(** A lower-case ASCII letter or a digit. *)
Definition isLowerAlnum (c : char) : bool := isLower c || isDigit c.

(** Defects and reports carrying a given message. *)
Definition hasMessage (msg : jsstring) (e : DetectedError) : bool :=
  JS.eqb (message e) msg.

Definition messageReport (msg : jsstring) (r : Report) : bool :=
  JS.eqb (snd r) msg.

Definition hasType (ty : ErrorType) (e : DetectedError) : bool :=
  ErrorType_eqb (type e) ty.

(** What one script region must satisfy to raise no defect. *)
Definition scriptPasses (script : jsstring) : Prop :=
  let jsCode := removeAll scriptTagAt 0 script in
  (includes jsCode (lit "function (") = true ->
   includes jsCode (lit ")") = true)
  /\ countChar 123%N jsCode = countChar 125%N jsCode
  /\ countChar 40%N jsCode = countChar 41%N jsCode.

(** A tag name as the scan keeps it: a lower-case letter followed by
    lower-case letters and digits. *)
Definition tagNameShape (tag : jsstring) : Prop :=
  match tag with
  | [] => False
  | c :: rest =>
      isLower c = true /\ Forall (fun d => isLowerAlnum d = true) rest
  end.

(** ** Stage 3 on a document that has a body *)

Definition imageFailed (img : HTMLImageElement) : bool :=
  negb (complete img) || (naturalWidth img =? 0)%Z.

(** What [analyzeRenderedOutput] reports on the document [doc] with body
    [b], in the order of the pushes. *)
Definition renderReport (doc : Document) (b : HTMLElement) : list Report :=
  reportIf (Nat.eqb (List.length (trim (innerHTML b))) 0)
    render_error (lit "Document body is empty - nothing rendered")
  ++ reportIf (includes (toLowerCase (innerText b)) (lit "uncaught")
               || includes (toLowerCase (innerText b)) (lit "syntaxerror"))
       runtime_error (lit "Error messages visible in rendered output")
  ++ reportIf (Nat.ltb 0 (List.length (List.filter imageFailed (images doc))))
       missing_dependency
       (ofNat (List.length (List.filter imageFailed (images doc)))
        ++ lit " image(s) failed to load")
  ++ reportIf (Nat.ltb (List.length (allElements doc))
                 (2 * List.length
                        (List.filter (isUnstyled doc) (allElements doc))))
       layout_broken
       (lit "Many elements appear unstyled - possible CSS issues").

(** ** The life of a detector *)

(** The worlds a detector can be in: it starts with an empty buffer, then
    any of its methods and listeners run, in any order and with any
    arguments, and anything may happen that leaves the detector alone. *)
Inductive detectorRuns (now : nat -> Z) : World -> Prop :=
| runs_start w :
    errorLog (detector w) = [] -> detectorRuns now w
| runs_detectSyntaxErrors w code :
    detectorRuns now w ->
    detectorRuns now (snd (detectSyntaxErrors now code w))
| runs_monitorIframe w f :
    detectorRuns now w -> detectorRuns now (snd (monitorIframe f w))
| runs_onConsoleError w args :
    detectorRuns now w -> detectorRuns now (snd (onConsoleError now args w))
| runs_onError w event :
    detectorRuns now w -> detectorRuns now (snd (onError now event w))
| runs_onUnhandledRejection w reason :
    detectorRuns now w ->
    detectorRuns now (snd (onUnhandledRejection now reason w))
| runs_analyzeRenderedOutput w :
    detectorRuns now w -> detectorRuns now (snd (analyzeRenderedOutput now w))
| runs_getErrors w :
    detectorRuns now w -> detectorRuns now (snd (getErrors w))
| runs_clearErrors w :
    detectorRuns now w -> detectorRuns now (snd (clearErrors w))
| runs_hasCriticalErrors w :
    detectorRuns now w -> detectorRuns now (snd (hasCriticalErrors w))
| runs_other w w' :
    detectorRuns now w -> detector w' = detector w -> detectorRuns now w'.

(** ** The life of the preview component *)

(** Strictly increasing ordinals. *)
Fixpoint ascending (l : list Z) : Prop :=
  match l with
  | [] => True
  | x :: rest => Forall (fun y => (x < y)%Z) rest /\ ascending rest
  end.

(** The states the component can be in: it mounts with a new engine and
    nothing sent yet; then its three functions run, in any order and with
    any arguments, and in between the frame and its listeners may do
    anything that leaves the engine and the requests alone. *)
Inductive previewRuns (now : nat -> Z)
    (service : list InvokeArgs -> InvokeArgs -> jsstring + jsstring)
    (originalPrompt : jsstring) : Preview * World -> Prop :=
| preview_mounts initialCode w :
    attemptHistory (engine w) = [] -> sent w = [] ->
    previewRuns now service originalPrompt (newPreview initialCode, w)
| preview_attemptFix st brokenCode detectedErrors :
    previewRuns now service originalPrompt st ->
    previewRuns now service originalPrompt
      (attemptFix now service originalPrompt brokenCode detectedErrors st)
| preview_validateAndHeal st code :
    previewRuns now service originalPrompt st ->
    previewRuns now service originalPrompt
      (snd (validateAndHeal now service originalPrompt code st))
| preview_renderCheck st frameMounted code :
    previewRuns now service originalPrompt st ->
    previewRuns now service originalPrompt
      (snd (renderCheck now service originalPrompt frameMounted code st))
| preview_surface p w w' :
    previewRuns now service originalPrompt (p, w) ->
    engine w' = engine w -> sent w' = sent w ->
    previewRuns now service originalPrompt (p, w').

(** What every state of the component satisfies: the counter is not
    negative, no more requests were sent than the counter and the maximum
    allow, no more attempts are recorded than requests were sent, and the
    recorded ordinals rise strictly and lie between 1 and the smaller of
    the counter and the maximum. *)
Definition previewInvariant (st : Preview * World) : Prop :=
  let numbers := List.map attemptNumber (attemptHistory (engine (snd st))) in
  let count := attemptCount (fst st) in
  (0 <= count)%Z
  /\ (Z.of_nat (List.length (sent (snd st))) <= Z.min count 5)%Z
  /\ List.length numbers <= List.length (sent (snd st))
  /\ ascending numbers
  /\ Forall (fun n => (1 <= n <= Z.min count 5)%Z) numbers.

(* ================================================================== *)
(** * Sample inputs *)
(* ================================================================== *)

(** A clock that stands still. *)
Definition zeroClock : nat -> Z := fun _ => 0%Z.

(** A document cut off before its closing root tag. *)
Definition sampleUnfinished : jsstring :=
  lit "<!DOCTYPE html><html><head></head><body><p>Hello</p></body>".

(** A document with two tags left open and two stray closing tags. *)
Definition sampleUnbalanced : jsstring :=
  lit "<!DOCTYPE html><html><head></head><body><div><p>Hello</b><br><img src=a></body></html></i>".

(** A service that answers every request with a fenced document. *)
Definition sampleService : list InvokeArgs -> InvokeArgs -> jsstring + jsstring :=
  fun _ _ =>
    inl (unlines [ lit "Here is the fix:"; lit "```html";
                   lit "<!DOCTYPE html><html><body>ok</body></html>";
                   lit "```" ]).

(** A service that cannot be reached. *)
Definition failingService : list InvokeArgs -> InvokeArgs -> jsstring + jsstring :=
  fun _ _ => inr (lit "connection refused").

(** A defect list as Stage 1 hands it to the engine. *)
Definition sampleDefects : list DetectedError :=
  [ mkDetectedError incomplete_code (lit "Missing closing </html> tag")
      None None None 0%Z ].

(** A detector attached to a frame whose document has lost its body. *)
Definition bodylessDocument : Document :=
  {| body := None; images := []; allElements := []; defaultView := true |}.

Definition bodylessWorld : World :=
  mkWorld 0 []
    (mkErrorDetector []
       (Some {| contentWindow := Some {| document := Some bodylessDocument |} |}))
    newSelfHealingEngine.

(** A complete document. *)
Definition sampleClean : jsstring :=
  lit "<!DOCTYPE html><html><head><script>function f() { return (1); }</script></head><body><p>Hello<br></p></body></html>".

(** A rendered document: an empty body, text of a stack trace, two
    images of which one failed, and two elements of which one carries
    neither style nor text. *)
Definition sampleDocument : Document :=
  {| body := Some {| innerHTML := lit "  ";
                     innerText := lit "Uncaught TypeError: x is undefined" |};
     images := [ {| complete := true; naturalWidth := 64%Z |};
                 {| complete := true; naturalWidth := 0%Z |} ];
     allElements :=
       [ {| textContent := Some (lit "Hello");
            computedStyle := {| display := lit "block"; width := lit "auto";
                                height := lit "auto" |} |};
         {| textContent := None;
            computedStyle := {| display := lit "inline"; width := lit "auto";
                                height := lit "auto" |} |} ];
     defaultView := true |}.

Definition sampleFrame : HTMLIFrameElement :=
  {| contentWindow := Some {| document := Some sampleDocument |} |}.

Definition sampleRenderedWorld : World :=
  mkWorld 0 [] (mkErrorDetector [] (Some sampleFrame)) newSelfHealingEngine.

(** A response that wraps its document in a fence, with prose around it. *)
Definition sampleResponse : jsstring :=
  lit "Here is the fix:" ++ nl ++ lit "```html" ++ nl
  ++ lit "<!DOCTYPE html><html><body>ok</body></html>" ++ lit "```"
  ++ lit " Enjoy!".

(** Seven repair attempts in a row on a component that has just mounted. *)
Definition sevenAttempts : Preview * World :=
  let fix' := attemptFix zeroClock sampleService (lit "a clock")
                sampleUnfinished sampleDefects in
  fix' (fix' (fix' (fix' (fix' (fix' (fix'
    (newPreview sampleUnfinished, newWorld))))))).

(** A component whose attempt counter has reached the maximum. *)
Definition exhaustedPreview : Preview :=
  mkPreview sampleUnfinished true [] [] engineHistory 5.

(** A world whose runtime buffer holds one defect. *)
Definition sampleLoggedWorld : World :=
  mkWorld 3 []
    (mkErrorDetector
       [mkDetectedError runtime_error (lit "x is not defined")
          (Some 3%Z) (Some 14%Z) None 0%Z]
       (Some sampleFrame))
    newSelfHealingEngine.

(** A text shorter than fifty code units. *)
Definition sampleShort : jsstring := lit "<p>hi</p>".



(** A conversation whose answer is about to be streamed. *)
Definition sampleStore : Chat.Store :=
  Chat.addMessage (lit "id-2") 2%Z (Chat.assistant, [], None)
    (Chat.addMessage (lit "id-1") 1%Z
       (Chat.user, lit "a clock", None) Chat.initialStore).

(* ================================================================== *)
(** * Properties *)
(* ================================================================== *)

(** ** Running method bodies *)

Lemma bind_Return (A B : Type) (m : M A) (k : A -> M B) w a w' :
  m w = (Return a, w') -> bind m k w = k a w'.
Proof. intros E. unfold bind. rewrite E. reflexivity. Qed.

Lemma bind_Throw (A B : Type) (m : M A) (k : A -> M B) w e w' :
  m w = (Throw e, w') -> bind m k w = (Throw e, w').
Proof. intros E. unfold bind. rewrite E. reflexivity. Qed.

Lemma set_clock_same w : set_clock (clock w) w = w.
Proof. destruct w. reflexivity. Qed.

Lemma set_clock_twice a b w : set_clock a (set_clock b w) = set_clock a w.
Proof. reflexivity. Qed.

(** ** Stamping *)

Lemma stamp_app now l1 : forall k l2,
  stamp now k (l1 ++ l2) = stamp now k l1 ++ stamp now (k + List.length l1) l2.
Proof.
  induction l1 as [|[ty msg] l1 IH]; intros k l2; simpl.
  - rewrite Nat.add_0_r. reflexivity.
  - rewrite IH. do 3 f_equal. lia.
Qed.

Lemma stamp_view now l : forall k,
  List.map view (stamp now k l)
  = List.map (fun r : Report => (fst r, snd r, None, None, None)) l.
Proof.
  induction l as [|[ty msg] l IH]; intros k; simpl; [reflexivity|].
  rewrite IH. reflexivity.
Qed.

Lemma stamp_ext now1 now2 l : forall k1 k2,
  (forall i, i < List.length l -> now1 (k1 + i) = now2 (k2 + i)) ->
  stamp now1 k1 l = stamp now2 k2 l.
Proof.
  induction l as [|[ty msg] l IH]; intros k1 k2 H; simpl; [reflexivity|].
  f_equal.
  - f_equal. specialize (H 0). rewrite !Nat.add_0_r in H. apply H. simpl. lia.
  - apply IH. intros i Hi. specialize (H (S i)).
    replace (S k1 + i) with (k1 + S i) by lia.
    replace (S k2 + i) with (k2 + S i) by lia.
    apply H. simpl. lia.
Qed.

Lemma stamp_filter now (p : DetectedError -> bool) (q : Report -> bool) l :
  (forall ty msg t, p (mkDetectedError ty msg None None None t) = q (ty, msg)) ->
  forall k, List.map view (List.filter p (stamp now k l))
            = List.map (fun r : Report => (fst r, snd r, None, None, None))
                (List.filter q l).
Proof.
  intros Hpq. induction l as [|[ty msg] l IH]; intros k; simpl; [reflexivity|].
  rewrite Hpq. destruct (q (ty, msg)); simpl; rewrite IH; reflexivity.
Qed.

Lemma stamp_In now l : forall k e,
  In e (stamp now k l) <->
  exists i ty msg, nth_error l i = Some (ty, msg)
                   /\ e = mkDetectedError ty msg None None None (now (k + i)).
Proof.
  induction l as [|[ty msg] l IH]; intros k e; simpl.
  - split; [tauto|]. intros (i & ty & msg & H & _). destruct i; discriminate.
  - rewrite IH. split.
    + intros [H | (i & ty' & msg' & H1 & H2)].
      * exists 0, ty, msg. rewrite Nat.add_0_r. split; [reflexivity|congruence].
      * exists (S i), ty', msg'. split; [exact H1|].
        rewrite H2. do 2 f_equal. lia.
    + intros (i & ty' & msg' & H1 & H2). destruct i as [|i]; simpl in H1.
      * left. inversion H1; subst. rewrite Nat.add_0_r. reflexivity.
      * right. exists i, ty', msg'. split; [exact H1|].
        rewrite H2. do 2 f_equal. lia.
Qed.

(** ** The run of [detectSyntaxErrors] *)

Section DetectorRun.

Variable now : nat -> Z.

Lemma push_run ty msg k raw w :
  push now (stamp now k raw) ty msg (set_clock (k + List.length raw) w)
  = (Return (stamp now k (raw ++ [(ty, msg)])),
     set_clock (k + List.length (raw ++ [(ty, msg)])) w).
Proof.
  unfold push, bind, Date_now, ret. simpl.
  rewrite stamp_app, length_app. simpl.
  rewrite set_clock_twice. do 2 f_equal. lia.
Qed.

Lemma pushIf_run cond ty msg k raw w :
  pushIf now cond (stamp now k raw) ty msg (set_clock (k + List.length raw) w)
  = (Return (stamp now k (raw ++ reportIf cond ty msg)),
     set_clock (k + List.length (raw ++ reportIf cond ty msg)) w).
Proof.
  destruct cond; simpl.
  - apply push_run.
  - rewrite app_nil_r. reflexivity.
Qed.

Lemma closeLoop_run closing : forall openTags k raw w,
  forEach (closeStep now) closing (openTags, stamp now k raw)
    (set_clock (k + List.length raw) w)
  = (Return (popAll openTags closing,
             stamp now k (raw ++ List.map unexpectedClosing
                                   (unmatchedClosings openTags closing))),
     set_clock (k + List.length
                      (raw ++ List.map unexpectedClosing
                                (unmatchedClosings openTags closing))) w).
Proof.
  induction closing as [|tag rest IH]; intros openTags k raw w; simpl.
  - rewrite app_nil_r. reflexivity.
  - unfold closeStep at 1, popTag at 1.
    destruct (lastIndexOf openTags tag) as [i|].
    + erewrite bind_Return by reflexivity. apply IH.
    + erewrite bind_Return.
      2:{ erewrite bind_Return by apply push_run. reflexivity. }
      rewrite IH. rewrite <- app_assoc. reflexivity.
Qed.

Lemma scriptStep_run script k raw w :
  scriptStep now (stamp now k raw) script (set_clock (k + List.length raw) w)
  = (Return (stamp now k (raw ++ scriptReport script)),
     set_clock (k + List.length (raw ++ scriptReport script)) w).
Proof.
  unfold scriptStep, scriptReport.
  erewrite bind_Return by apply pushIf_run.
  erewrite bind_Return by apply pushIf_run.
  rewrite pushIf_run. rewrite <- !app_assoc. reflexivity.
Qed.

Lemma scriptLoop_run scripts : forall k raw w,
  forEach (scriptStep now) scripts (stamp now k raw)
    (set_clock (k + List.length raw) w)
  = (Return (stamp now k (raw ++ flat_map scriptReport scripts)),
     set_clock (k + List.length (raw ++ flat_map scriptReport scripts)) w).
Proof.
  induction scripts as [|script rest IH]; intros k raw w; simpl.
  - rewrite app_nil_r. reflexivity.
  - erewrite bind_Return by apply scriptStep_run.
    rewrite IH. rewrite <- app_assoc. reflexivity.
Qed.

(** A run of Stage 1 returns, reads the clock once per report and
    changes nothing else. *)
Lemma detectSyntaxErrors_run code w :
  detectSyntaxErrors now code w
  = (Return (stamp now (clock w) (report code)),
     set_clock (clock w + List.length (report code)) w).
Proof.
  transitivity
    (detectSyntaxErrors now code
       (set_clock (clock w + List.length (@nil Report)) w)).
  { simpl. rewrite Nat.add_0_r, set_clock_same. reflexivity. }
  unfold detectSyntaxErrors.
  change (@nil DetectedError) with (stamp now (clock w) []).
  do 3 (erewrite bind_Return by apply pushIf_run).
  erewrite bind_Return by apply closeLoop_run.
  cbv beta iota.
  erewrite bind_Return by apply pushIf_run.
  erewrite bind_Return by apply scriptLoop_run.
  do 4 (erewrite bind_Return by apply pushIf_run).
  unfold ret, report, headReport, tagReport, tailReport, unclosedMessage,
    unclosedTags.
  rewrite <- !app_assoc. reflexivity.
Qed.

End DetectorRun.

(** ** The patterns capture ASCII names and never match the empty string *)

Lemma span_Forall (p : char -> bool) s :
  Forall (fun c => p c = true) (fst (span p s)).
Proof.
  induction s as [|c s IH]; simpl; [constructor|].
  destruct (p c) eqn:E; [|constructor].
  destruct (span p s) as [a b]. simpl in *. constructor; assumption.
Qed.

Lemma openTagAt_name s name len :
  openTagAt s = Some (name, len) ->
  Forall (fun c => isAlnum c = true) name /\ 3 <= len.
Proof.
  unfold openTagAt. destruct s as [|lt [|c s1]]; try discriminate.
  destruct ((lt =? 60)%N && isLetter c) eqn:E; [|discriminate].
  pose proof (span_Forall isAlnum s1) as F.
  destruct (span isAlnum s1) as [a s2]. simpl in F.
  destruct (wordBoundary s2); [|discriminate].
  destruct (throughGt s2) as [n|] eqn:En; [|discriminate].
  intros H. inversion H; subst. split.
  - constructor; [|exact F].
    apply andb_prop in E. destruct E as [_ E].
    unfold isAlnum. rewrite E. reflexivity.
  - destruct s2 as [|d s2]; [discriminate|]. simpl in En.
    destruct (d =? 62)%N; [inversion En; lia|].
    destruct (throughGt s2); [inversion En; lia | discriminate].
Qed.

Lemma closingTagAt_name s name len :
  closingTagAt s = Some (name, len) ->
  Forall (fun c => isAlnum c = true) name /\ 4 <= len.
Proof.
  unfold closingTagAt. destruct s as [|lt [|sl [|c s1]]]; try discriminate.
  destruct ((lt =? 60)%N && (sl =? 47)%N && isLetter c) eqn:E; [|discriminate].
  pose proof (span_Forall isAlnum s1) as F.
  destruct (span isAlnum s1) as [a s2]. simpl in F.
  destruct s2 as [|gt s2]; [discriminate|].
  destruct (gt =? 62)%N; [|discriminate].
  intros H. inversion H; subst. split; [|lia].
  constructor; [|exact F].
  apply andb_prop in E. destruct E as [_ E].
  unfold isAlnum. rewrite E. reflexivity.
Qed.

(** ** The listeners of Stage 2 do write to the buffer *)

Lemma onConsoleError_logs now args w :
  exists w',
    onConsoleError now args w = (Return tt, w')
    /\ errorLog (detector w')
       = errorLog (detector w)
         ++ [mkDetectedError runtime_error (join (lit " ") args)
               None None None (now (clock w))].
Proof. eexists. split; reflexivity. Qed.

(** ** The kinds and messages of the reports *)

Lemma Forall_reportIf (P : Report -> Prop) cond ty msg :
  P (ty, msg) -> Forall P (reportIf cond ty msg).
Proof. intros H. destruct cond; simpl; auto. Qed.

Lemma Forall_scriptReport (P : Report -> Prop) script :
  (forall msg, P (syntax_error, msg)) -> Forall P (scriptReport script).
Proof.
  intros H. unfold scriptReport.
  repeat (apply Forall_app; split); apply Forall_reportIf; apply H.
Qed.

Lemma Forall_unexpected (P : Report -> Prop) tags :
  (forall msg, P (syntax_error, msg)) ->
  Forall P (List.map unexpectedClosing tags).
Proof.
  intros H. apply Forall_forall. intros r Hr.
  apply in_map_iff in Hr. destruct Hr as (tag & <- & _). apply H.
Qed.

Lemma Forall_report (P : Report -> Prop) code :
  (forall msg, P (syntax_error, msg)) ->
  (forall msg, P (incomplete_code, msg)) ->
  Forall P (report code).
Proof.
  intros Hs Hi. unfold report, headReport, tagReport, tailReport.
  repeat (apply Forall_app; split);
    try (apply Forall_reportIf; auto).
  - apply Forall_unexpected; auto.
  - apply Forall_forall. intros r Hr. apply in_flat_map in Hr.
    destruct Hr as (script & _ & Hr).
    pose proof (Forall_scriptReport P script Hs) as F.
    rewrite Forall_forall in F. auto.
Qed.

Lemma stamp_Forall now (P : ErrorType -> Prop) l : forall k,
  Forall (fun r : Report => P (fst r)) l ->
  Forall (fun e => P (type e)) (stamp now k l).
Proof.
  induction l as [|[ty msg] l IH]; intros k H; simpl; [constructor|].
  inversion H; subst. constructor; [assumption | apply IH; assumption].
Qed.

Lemma filter_nothing (A : Type) (q : A -> bool) l :
  Forall (fun r => q r = false) l -> List.filter q l = [].
Proof.
  induction 1 as [|r l Hr _ IH]; simpl; [reflexivity|].
  rewrite Hr. exact IH.
Qed.

Lemma filter_everything (A : Type) (q : A -> bool) l :
  Forall (fun r => q r = true) l -> List.filter q l = l.
Proof.
  induction 1 as [|r l Hr _ IH]; simpl; [reflexivity|].
  rewrite Hr, IH. reflexivity.
Qed.

Lemma filter_reportIf_out (q : Report -> bool) cond ty msg :
  q (ty, msg) = false -> List.filter q (reportIf cond ty msg) = [].
Proof. intros H. destruct cond; simpl; [rewrite H|]; reflexivity. Qed.

Lemma filter_reportIf_in (q : Report -> bool) cond ty msg :
  q (ty, msg) = true ->
  List.filter q (reportIf cond ty msg) = reportIf cond ty msg.
Proof. intros H. destruct cond; simpl; [rewrite H|]; reflexivity. Qed.

Lemma filter_flat_map_nothing (A B : Type) (q : B -> bool) (f : A -> list B) l :
  (forall a, List.filter q (f a) = []) -> List.filter q (flat_map f l) = [].
Proof.
  intros H. induction l as [|a l IH]; simpl; [reflexivity|].
  rewrite filter_app, H, IH. reflexivity.
Qed.

Lemma report_incomplete code :
  List.filter incompleteReport (report code)
  = reportIf (negb (includes code (lit "</html>")))
      incomplete_code (lit "Missing closing </html> tag")
    ++ reportIf (negb (includes code (lit "</html>")))
         incomplete_code
         (lit "HTML document appears incomplete (missing </html>)").
Proof.
  unfold report, headReport, tagReport, tailReport.
  rewrite !filter_app.
  rewrite !(@filter_reportIf_out incompleteReport _ syntax_error)
    by reflexivity.
  rewrite !(@filter_reportIf_in incompleteReport _ incomplete_code)
    by reflexivity.
  rewrite (@filter_nothing _ incompleteReport (List.map _ _))
    by (apply Forall_unexpected; reflexivity).
  rewrite filter_flat_map_nothing.
  2:{ intros script. apply filter_nothing.
      apply Forall_scriptReport. reflexivity. }
  simpl. rewrite !app_nil_r. reflexivity.
Qed.

(** ** Strings *)

Lemma char_eqb_refl c : char_eqb c c = true.
Proof. apply N.eqb_refl. Qed.

Lemma startsWith_app p s : startsWith p (p ++ s) = true.
Proof.
  induction p as [|c p IH]; simpl; [reflexivity|].
  rewrite char_eqb_refl, IH. reflexivity.
Qed.

Lemma includes_here p s : includes (p ++ s) p = true.
Proof.
  destruct p as [|c p]; [destruct s; reflexivity|].
  cbn [includes app]. change (c :: p ++ s) with ((c :: p) ++ s).
  rewrite startsWith_app. reflexivity.
Qed.

Lemma includes_app_l a s p : includes s p = true -> includes (a ++ s) p = true.
Proof.
  intros H. induction a as [|c a IH]; simpl; [exact H|].
  rewrite IH. apply orb_true_r.
Qed.

Lemma join_In sep tags tag :
  In tag tags -> exists a b, join sep tags = a ++ tag ++ b.
Proof.
  induction tags as [|x rest IH]; intros H; [contradiction|].
  destruct rest as [|y rest].
  - destruct H as [->|[]]. exists [], []. simpl. rewrite app_nil_r. reflexivity.
  - destruct H as [->|H].
    + exists [], (sep ++ join sep (y :: rest)). reflexivity.
    + destruct (IH H) as (a & b & E).
      exists (x ++ sep ++ a), b.
      change (join sep (x :: y :: rest)) with (x ++ sep ++ join sep (y :: rest)).
      rewrite E, <- !app_assoc. reflexivity.
Qed.

Lemma unclosedMessage_lists tags tag :
  In tag tags -> includes (unclosedMessage tags) tag = true.
Proof.
  intros H. destruct (join_In (lit ", ") tags tag H) as (a & b & E).
  unfold unclosedMessage. rewrite E.
  apply includes_app_l, includes_app_l, includes_here.
Qed.

(** ** The tag-balance scan *)

Lemma unmatchedClosings_In before : forall openTags tag after,
  lastIndexOf (popAll openTags before) tag = None ->
  In tag (unmatchedClosings openTags (before ++ tag :: after)).
Proof.
  induction before as [|c before IH]; intros openTags tag after H; simpl in *.
  - rewrite H. left. reflexivity.
  - unfold popTag in H. destruct (lastIndexOf openTags c) as [i|].
    + apply IH. exact H.
    + right. apply IH. exact H.
Qed.

Lemma report_unclosed code :
  List.filter unclosedReport (report code)
  = reportIf (Nat.ltb 0 (List.length (unclosedTags code)))
      syntax_error (unclosedMessage (unclosedTags code)).
Proof.
  unfold report, headReport, tagReport, tailReport.
  rewrite !filter_app.
  rewrite (@filter_reportIf_in unclosedReport _ _ (unclosedMessage _))
    by apply startsWith_app.
  rewrite !(@filter_reportIf_out unclosedReport) by reflexivity.
  rewrite (@filter_nothing _ unclosedReport (List.map _ _)).
  2:{ apply Forall_forall. intros r Hr. apply in_map_iff in Hr.
      destruct Hr as (tag & <- & _). reflexivity. }
  rewrite filter_flat_map_nothing.
  2:{ intros script. unfold scriptReport. rewrite !filter_app.
      rewrite !(@filter_reportIf_out unclosedReport) by reflexivity.
      reflexivity. }
  simpl. rewrite app_nil_r. reflexivity.
Qed.

Lemma report_unexpected code :
  List.filter unexpectedClosingReport (report code)
  = List.map unexpectedClosing
      (unmatchedClosings (collectOpenTags code) (closingTags code)).
Proof.
  unfold report, headReport, tagReport, tailReport.
  rewrite !filter_app.
  rewrite !(@filter_reportIf_out unexpectedClosingReport) by reflexivity.
  rewrite (@filter_everything _ unexpectedClosingReport (List.map _ _)).
  2:{ apply Forall_forall. intros r Hr. apply in_map_iff in Hr.
      destruct Hr as (tag & <- & _). reflexivity. }
  rewrite filter_flat_map_nothing.
  2:{ intros script. unfold scriptReport. rewrite !filter_app.
      rewrite !(@filter_reportIf_out unexpectedClosingReport) by reflexivity.
      reflexivity. }
  simpl. rewrite !app_nil_r. reflexivity.
Qed.

(* ================================================================== *)
(** * Stage 1 of the detector *)
(* ================================================================== *)

(** Opens a statement of the form "the run returns some [errs] in some
    [w'] and ..." with what the run returns. *)
Ltac stage1_returns :=
  rewrite detectSyntaxErrors_run; eexists; eexists;
  split; [reflexivity|].

Lemma isIncomplete_stamped ty msg t :
  isIncomplete (mkDetectedError ty msg None None None t)
  = incompleteReport (ty, msg).
Proof. reflexivity. Qed.

Lemma isUnclosed_stamped ty msg t :
  isUnclosedDefect (mkDetectedError ty msg None None None t)
  = unclosedReport (ty, msg).
Proof. reflexivity. Qed.

Lemma isUnexpected_stamped ty msg t :
  isUnexpectedClosingDefect (mkDetectedError ty msg None None None t)
  = unexpectedClosingReport (ty, msg).
Proof. reflexivity. Qed.

(** C4, at the failing input: on a document that stops before [</html>]
    Stage 1 reports the missing closing root tag twice, once by the check
    near its start ("Missing closing </html> tag") and once more by the
    repeated check near its end
    ("HTML document appears incomplete (missing </html>)"), so the list
    holds two defects of kind [incomplete_code] for that one condition,
    not one. *)
Lemma missing_closing_root_not_reported_once :
  includes sampleUnfinished (lit "</html>") = false /\
  exists errs w',
    detectSyntaxErrors zeroClock sampleUnfinished newWorld = (Return errs, w')
    /\ List.map message (List.filter isIncomplete errs)
       = [ lit "Missing closing </html> tag";
           lit "HTML document appears incomplete (missing </html>)" ]
    /\ List.length (List.filter isIncomplete errs) <> 1.
Proof.
  split; [reflexivity|].
  stage1_returns. split; [reflexivity|].
  vm_compute. discriminate.
Qed.

(** The repeated check fires on every text that lacks [</html>], not only
    on the sample: the defects of kind [incomplete_code] are then always
    the same two, first "Missing closing </html> tag", later
    "HTML document appears incomplete (missing </html>)". *)
Theorem missing_closing_root_reported_twice now code w :
  includes code (lit "</html>") = false ->
  exists errs w',
    detectSyntaxErrors now code w = (Return errs, w')
    /\ List.map view (List.filter isIncomplete errs)
       = [ (incomplete_code, lit "Missing closing </html> tag",
            None, None, None);
           (incomplete_code,
            lit "HTML document appears incomplete (missing </html>)",
            None, None, None) ]
    /\ List.length (List.filter isIncomplete errs) = 2.
Proof.
  intros H. stage1_returns.
  assert (E : List.map view
                (List.filter isIncomplete
                   (stamp now (clock w) (report code)))
              = [ (incomplete_code, lit "Missing closing </html> tag",
                   None, None, None);
                  (incomplete_code,
                   lit "HTML document appears incomplete (missing </html>)",
                   None, None, None) ]).
  { rewrite (stamp_filter now isIncomplete incompleteReport
               (report code) isIncomplete_stamped).
    rewrite report_incomplete, H. reflexivity. }
  split; [exact E|].
  rewrite <- (length_map view), E. reflexivity.
Qed.

Lemma missing_closing_root_reported_twice_witness :
  includes sampleUnfinished (lit "</html>") = false /\
  exists errs w',
    detectSyntaxErrors zeroClock sampleUnfinished newWorld = (Return errs, w')
    /\ List.map view (List.filter isIncomplete errs)
       = [ (incomplete_code, lit "Missing closing </html> tag",
            None, None, None);
           (incomplete_code,
            lit "HTML document appears incomplete (missing </html>)",
            None, None, None) ]
    /\ List.length (List.filter isIncomplete errs) = 2.
Proof.
  split; [reflexivity|].
  apply (missing_closing_root_reported_twice
           zeroClock sampleUnfinished newWorld).
  reflexivity.
Defined.

(** C10: every defect produced by Stage 1 has kind [syntax_error] or
    [incomplete_code]; none has kind [runtime_error], [render_error],
    [missing_dependency], [layout_broken] or [llm_generation_error]. *)
Theorem stage1_kinds now code w :
  exists errs w',
    detectSyntaxErrors now code w = (Return errs, w')
    /\ Forall (fun e => type e = syntax_error \/ type e = incomplete_code) errs
    /\ Forall (fun e => type e <> runtime_error
                        /\ type e <> render_error
                        /\ type e <> missing_dependency
                        /\ type e <> layout_broken
                        /\ type e <> llm_generation_error) errs.
Proof.
  stage1_returns. split.
  - apply (stamp_Forall now
             (fun ty => ty = syntax_error \/ ty = incomplete_code)).
    apply Forall_report; intros msg; [left|right]; reflexivity.
  - apply (stamp_Forall now
             (fun ty => ty <> runtime_error /\ ty <> render_error
                        /\ ty <> missing_dependency /\ ty <> layout_broken
                        /\ ty <> llm_generation_error)).
    apply Forall_report; intros msg; simpl; repeat split; discriminate.
Qed.

(** C9: running Stage 1 leaves the detector as it was: the runtime
    buffer [errorLog] is unchanged, none of the returned defects is
    appended to it, and [getErrors] afterwards answers what the buffer
    held before. *)
Theorem stage1_leaves_errorLog now code w :
  exists errs w',
    detectSyntaxErrors now code w = (Return errs, w')
    /\ detector w' = detector w
    /\ errorLog (detector w') = errorLog (detector w)
    /\ getErrors w' = (Return (errorLog (detector w)), w')
    /\ fst (getErrors w') = fst (getErrors w).
Proof.
  stage1_returns. repeat split.
Qed.

(** C8: Stage 1 is deterministic and idempotent.  Run twice in a row on
    the same text it returns the same defects both times: same number,
    same kinds, same messages, same order, no location and no trace.  The
    same holds for any two runs whatever the detector state and the
    clock; the clock readings stored in the defects are the only thing
    that can differ, and they agree as well when the clock reads the same
    during both runs. *)
Theorem stage1_idempotent now code w :
  exists errs1 w1 errs2 w2,
    detectSyntaxErrors now code w = (Return errs1, w1)
    /\ detectSyntaxErrors now code w1 = (Return errs2, w2)
    /\ List.map view errs1 = List.map view errs2
    /\ List.map type errs1 = List.map type errs2
    /\ List.map message errs1 = List.map message errs2
    /\ (forall now' v,
          exists errs' v',
            detectSyntaxErrors now' code v = (Return errs', v')
            /\ List.map view errs' = List.map view errs1)
    /\ ((forall i, now (clock w1 + i) = now (clock w + i)) -> errs2 = errs1).
Proof.
  rewrite detectSyntaxErrors_run. eexists; eexists.
  rewrite detectSyntaxErrors_run. eexists; eexists.
  split; [reflexivity|]. split; [reflexivity|].
  assert (V : forall n1 n2 k1 k2,
             List.map view (stamp n1 k1 (report code))
             = List.map view (stamp n2 k2 (report code))).
  { intros. rewrite !stamp_view. reflexivity. }
  split; [apply V|].
  split.
  { pose proof (V now now (clock w)
                  (clock (set_clock (clock w + List.length (report code)) w)))
      as E.
    apply (f_equal (List.map (fun v => fst (fst (fst (fst v)))))) in E.
    rewrite !map_map in E. exact E. }
  split.
  { pose proof (V now now (clock w)
                  (clock (set_clock (clock w + List.length (report code)) w)))
      as E.
    apply (f_equal (List.map (fun v => snd (fst (fst (fst v)))))) in E.
    rewrite !map_map in E. exact E. }
  split.
  { intros now' v. rewrite detectSyntaxErrors_run. eexists; eexists.
    split; [reflexivity | apply V]. }
  intros H. apply stamp_ext. intros i _. apply H.
Qed.

Lemma stage1_idempotent_witness :
  exists errs1 w1 errs2 w2,
    detectSyntaxErrors zeroClock sampleUnbalanced newWorld = (Return errs1, w1)
    /\ detectSyntaxErrors zeroClock sampleUnbalanced w1 = (Return errs2, w2)
    /\ List.map view errs1 = List.map view errs2
    /\ errs2 = errs1.
Proof.
  destruct (stage1_idempotent zeroClock sampleUnbalanced newWorld)
    as (errs1 & w1 & errs2 & w2 & E1 & E2 & V & _ & _ & _ & T).
  exists errs1, w1, errs2, w2.
  split; [exact E1|]. split; [exact E2|]. split; [exact V|].
  apply T. intros i. reflexivity.
Defined.

(** C5: when the tag-balance scan ends with N >= 1 opening tags left on
    [openTags] (of distinct names or not), Stage 1 reports exactly one
    defect for that condition; it has kind [syntax_error] and its message
    is "Unclosed tags: " followed by all N names, separated by ", ".
    Separately, every closing tag that finds no open tag of its name when
    its turn comes yields a [syntax_error] defect with the message
    "Unexpected closing tag: </name>", one defect per such closing tag
    and in their order. *)
Theorem tag_balance_defects now code w :
  exists errs w',
    detectSyntaxErrors now code w = (Return errs, w')
    /\ (unclosedTags code <> [] ->
        exists e,
          List.filter isUnclosedDefect errs = [e]
          /\ type e = syntax_error
          /\ message e
             = lit "Unclosed tags: " ++ join (lit ", ") (unclosedTags code)
          /\ forall tag, In tag (unclosedTags code) ->
                         includes (message e) tag = true)
    /\ (forall before tag after,
          closingTags code = before ++ tag :: after ->
          lastIndexOf (popAll (collectOpenTags code) before) tag = None ->
          exists e,
            In e errs
            /\ type e = syntax_error
            /\ message e = lit "Unexpected closing tag: </" ++ tag ++ lit ">")
    /\ List.map view (List.filter isUnexpectedClosingDefect errs)
       = List.map
           (fun tag =>
              (syntax_error, lit "Unexpected closing tag: </" ++ tag ++ lit ">",
               None, None, None))
           (unmatchedClosings (collectOpenTags code) (closingTags code)).
Proof.
  stage1_returns. split; [|split].
  - intros Hne.
    pose proof (stamp_filter now isUnclosedDefect unclosedReport
                  (report code) isUnclosed_stamped (clock w)) as F.
    rewrite report_unclosed in F.
    destruct (unclosedTags code) as [|t ts] eqn:Eu; [congruence|].
    simpl in F.
    destruct (List.filter isUnclosedDefect (stamp now (clock w) (report code)))
      as [|e [|e' rest]]; try discriminate.
    exists e. unfold view in F. simpl in F. injection F as Ht Hm _ _ _.
    split; [reflexivity|]. split; [exact Ht|]. split; [exact Hm|].
    intros tag Hin. rewrite Hm. apply unclosedMessage_lists. exact Hin.
  - intros before tag after Hsplit Hnone.
    assert (Hin : In (unexpectedClosing tag) (report code)).
    { unfold report, tagReport. apply in_or_app. right.
      apply in_or_app. left. apply in_or_app. left.
      apply in_map. rewrite Hsplit. apply unmatchedClosings_In. exact Hnone. }
    apply In_nth_error in Hin. destruct Hin as (i & Hi).
    exists (mkDetectedError syntax_error
              (lit "Unexpected closing tag: </" ++ tag ++ lit ">")
              None None None (now (clock w + i))).
    split; [|split; reflexivity].
    apply stamp_In. exists i, syntax_error,
      (lit "Unexpected closing tag: </" ++ tag ++ lit ">").
    split; [exact Hi | reflexivity].
  - rewrite (stamp_filter now isUnexpectedClosingDefect
               unexpectedClosingReport (report code) isUnexpected_stamped).
    rewrite report_unexpected, map_map. reflexivity.
Qed.

Lemma tag_balance_defects_witness :
  unclosedTags sampleUnbalanced = [lit "div"; lit "p"] /\
  closingTags sampleUnbalanced
  = [lit "head"] ++ lit "b" :: [lit "body"; lit "html"; lit "i"] /\
  exists errs w',
    detectSyntaxErrors zeroClock sampleUnbalanced newWorld = (Return errs, w')
    /\ (exists e, List.filter isUnclosedDefect errs = [e]
                  /\ type e = syntax_error
                  /\ message e = lit "Unclosed tags: div, p")
    /\ (exists e, In e errs
                  /\ type e = syntax_error
                  /\ message e = lit "Unexpected closing tag: </b>").
Proof.
  split; [reflexivity|]. split; [reflexivity|].
  destruct (tag_balance_defects zeroClock sampleUnbalanced newWorld)
    as (errs & w' & E & Hunclosed & Hclosing & _).
  exists errs, w'. split; [exact E|]. split.
  - destruct Hunclosed as (e & He & Ht & Hm & _);
      [vm_compute; discriminate|].
    exists e. split; [exact He|]. split; [exact Ht|exact Hm].
  - apply (Hclosing [lit "head"] (lit "b")
             [lit "body"; lit "html"; lit "i"]); reflexivity.
Defined.

(* ================================================================== *)
(** * The healing engine *)
(* ================================================================== *)

Section EngineRun.

Variable now : nat -> Z.
Variable service : list InvokeArgs -> InvokeArgs -> jsstring + jsstring.

Lemma requestFix_resolved fixPrompt w response :
  service (sent w) (fixRequest fixPrompt w) = inl response ->
  requestFix service fixPrompt w
  = (Return (extractCode response),
     set_sent (sent w ++ [fixRequest fixPrompt w]) w).
Proof.
  intros H. unfold requestFix, tryCatch, bind, getAttemptCount, getEngine,
    invoke, ret. simpl.
  change (mkInvokeArgs _ fixPrompt true _) with (fixRequest fixPrompt w).
  rewrite H. unfold extractCode.
  destruct (firstMatch fenceAt response); reflexivity.
Qed.

Lemma requestFix_rejected fixPrompt w text :
  service (sent w) (fixRequest fixPrompt w) = inr text ->
  requestFix service fixPrompt w
  = (Throw (Error (lit "LLM fix request failed: " ++ text)),
     set_sent (sent w ++ [fixRequest fixPrompt w]) w).
Proof.
  intros H. unfold requestFix, tryCatch, bind, getAttemptCount, getEngine,
    invoke, ret. simpl.
  change (mkInvokeArgs _ fixPrompt true _) with (fixRequest fixPrompt w).
  rewrite H. reflexivity.
Qed.

(** The three ways a call of [healCode] can go. *)
Lemma healCode_refused originalPrompt brokenCode errors attemptNumber w :
  (maxAttempts < attemptNumber)%Z ->
  healCode now service originalPrompt brokenCode errors attemptNumber w
  = (Throw (Error
              (lit "Max healing attempts reached. Code could not be fixed.")),
     w).
Proof.
  intros H. unfold healCode.
  destruct (Z.ltb_spec maxAttempts attemptNumber); [reflexivity | lia].
Qed.

Lemma healCode_resolved originalPrompt brokenCode errors attemptNumber w
    response :
  (attemptNumber <= maxAttempts)%Z ->
  let strategy := selectStrategy errors attemptNumber in
  let fixPrompt :=
    buildFixPrompt originalPrompt brokenCode errors strategy attemptNumber in
  service (sent w) (fixRequest fixPrompt w) = inl response ->
  healCode now service originalPrompt brokenCode errors attemptNumber w
  = (Return (extractCode response),
     mkWorld (S (clock w)) (sent w ++ [fixRequest fixPrompt w]) (detector w)
       (mkSelfHealingEngine
          (attemptHistory (engine w)
           ++ [mkFixAttempt attemptNumber strategy fixPrompt
                 (Some (extractCode response)) false (Some errors)
                 (now (clock w))]))).
Proof.
  intros Hn strategy fixPrompt H. unfold healCode.
  destruct (Z.ltb_spec maxAttempts attemptNumber); [lia|].
  fold strategy. fold fixPrompt.
  erewrite bind_Return by (apply requestFix_resolved; exact H).
  reflexivity.
Qed.

Lemma healCode_rejected originalPrompt brokenCode errors attemptNumber w
    text :
  (attemptNumber <= maxAttempts)%Z ->
  let strategy := selectStrategy errors attemptNumber in
  let fixPrompt :=
    buildFixPrompt originalPrompt brokenCode errors strategy attemptNumber in
  service (sent w) (fixRequest fixPrompt w) = inr text ->
  healCode now service originalPrompt brokenCode errors attemptNumber w
  = (Throw (Error (lit "LLM fix request failed: " ++ text)),
     set_sent (sent w ++ [fixRequest fixPrompt w]) w).
Proof.
  intros Hn strategy fixPrompt H. unfold healCode.
  destruct (Z.ltb_spec maxAttempts attemptNumber); [lia|].
  fold strategy. fold fixPrompt.
  erewrite bind_Throw by (apply requestFix_rejected; exact H).
  reflexivity.
Qed.

(** Whatever happens, [healCode] leaves the earlier attempts in place
    and adds at most one, not yet successful. *)
Lemma healCode_history originalPrompt brokenCode errors attemptNumber w :
  let w' := snd (healCode now service originalPrompt brokenCode errors
                   attemptNumber w) in
  attemptHistory (engine w') = attemptHistory (engine w)
  \/ exists a, attemptHistory (engine w') = attemptHistory (engine w) ++ [a]
               /\ success a = false.
Proof.
  intros w'. subst w'.
  destruct (Z.ltb_spec maxAttempts attemptNumber) as [Hn|Hn].
  - rewrite healCode_refused by exact Hn. left. reflexivity.
  - destruct (service (sent w)
                (fixRequest
                   (buildFixPrompt originalPrompt brokenCode errors
                      (selectStrategy errors attemptNumber) attemptNumber) w))
      as [response|text] eqn:E.
    + erewrite healCode_resolved; [|exact Hn|exact E]. right.
      eexists. split; reflexivity.
    + erewrite healCode_rejected; [|exact Hn|exact E]. left. reflexivity.
Qed.

Lemma afterHeals_unmarked w :
  afterHeals now service w ->
  Forall (fun a => success a = false) (attemptHistory (engine w)).
Proof.
  induction 1 as [w H | w p c e n _ IH | w w' _ IH E].
  - rewrite H. constructor.
  - destruct (healCode_history p c e n w) as [E | (a & E & Ha)];
      rewrite E; [exact IH|].
    apply Forall_app. split; [exact IH|]. constructor; [exact Ha|constructor].
  - rewrite E. exact IH.
Qed.

End EngineRun.

Lemma updateAt_last (A : Type) (f : A -> A) (l : list A) a :
  updateAt (List.length (l ++ [a]) - 1) f (l ++ [a]) = l ++ [f a].
Proof.
  induction l as [|x l IH]; [reflexivity|].
  simpl. rewrite length_app in *. simpl in *.
  replace (List.length l + 1 - 0) with (S (List.length l)) by lia.
  replace (List.length l + 1 - 1) with (List.length l) in IH by lia.
  simpl. rewrite IH. reflexivity.
Qed.

Lemma markLastAttemptSuccess_empty w :
  attemptHistory (engine w) = [] -> markLastAttemptSuccess w = (Return tt, w).
Proof.
  intros H. unfold markLastAttemptSuccess, bind, getEngine. simpl.
  rewrite H. reflexivity.
Qed.

Lemma markLastAttemptSuccess_last w earlier a :
  attemptHistory (engine w) = earlier ++ [a] ->
  markLastAttemptSuccess w
  = (Return tt,
     set_engine (mkSelfHealingEngine (earlier ++ [setSuccess a])) w).
Proof.
  intros H. unfold markLastAttemptSuccess, bind, getEngine, putEngine. simpl.
  rewrite H, updateAt_last.
  rewrite length_app. simpl.
  destruct (Nat.ltb_spec 0 (List.length earlier + 1)); [reflexivity | lia].
Qed.

Lemma healCode_strategy now service originalPrompt brokenCode errors n w a :
  attemptHistory
    (engine (snd (healCode now service originalPrompt brokenCode errors n w)))
  = attemptHistory (engine w) ++ [a] ->
  strategy a = selectStrategy errors n
  /\ attemptNumber a = n.
Proof.
  assert (Hlen : forall h : list FixAttempt, h <> h ++ [a]).
  { intros h E. apply (f_equal (@List.length _)) in E.
    rewrite length_app in E. simpl in E. lia. }
  destruct (Z.ltb_spec maxAttempts n) as [Hn|Hn].
  - rewrite healCode_refused by exact Hn. intros E. destruct (Hlen _ E).
  - destruct (service (sent w)
                (fixRequest
                   (buildFixPrompt originalPrompt brokenCode errors
                      (selectStrategy errors n) n) w))
      as [response|text] eqn:E.
    + erewrite healCode_resolved; [|exact Hn|exact E]. simpl. intros Ea.
      apply app_inj_tail in Ea. destruct Ea as [_ <-]. split; reflexivity.
    + erewrite healCode_rejected; [|exact Hn|exact E]. simpl. intros Ea.
      destruct (Hlen _ Ea).
Qed.

(** C1: for every defect list and every attempt ordinal n >= 1 the
    strategy is a function of n alone: 1 gives [explain_and_fix], 2 gives
    [add_error_handling], 3 gives [simplify], 4 gives [use_alternatives],
    every n >= 5 gives [rebuild_from_scratch]; [add_fallbacks] is never
    selected; another defect list gives the same strategy; and this is the
    strategy [healCode] records in the attempt it appends. *)
Theorem selectStrategy_by_ordinal errors n :
  (1 <= n)%Z ->
  (n = 1%Z -> selectStrategy errors n = explain_and_fix)
  /\ (n = 2%Z -> selectStrategy errors n = add_error_handling)
  /\ (n = 3%Z -> selectStrategy errors n = simplify)
  /\ (n = 4%Z -> selectStrategy errors n = use_alternatives)
  /\ ((5 <= n)%Z -> selectStrategy errors n = rebuild_from_scratch)
  /\ selectStrategy errors n <> add_fallbacks
  /\ (forall errors', selectStrategy errors' n = selectStrategy errors n)
  /\ (forall now service originalPrompt brokenCode w a,
        attemptHistory
          (engine (snd (healCode now service originalPrompt brokenCode
                          errors n w)))
        = attemptHistory (engine w) ++ [a] ->
        strategy a = selectStrategy errors n).
Proof.
  intros Hn. unfold selectStrategy at 1 2 3 4 5 6.
  repeat split.
  - intros ->. reflexivity.
  - intros ->. reflexivity.
  - intros ->. reflexivity.
  - intros ->. reflexivity.
  - intros H5.
    destruct (Z.eqb_spec n 1); [lia|]. destruct (Z.eqb_spec n 2); [lia|].
    destruct (Z.eqb_spec n 3); [lia|]. destruct (Z.eqb_spec n 4); [lia|].
    reflexivity.
  - destruct (n =? 1)%Z; [discriminate|]. destruct (n =? 2)%Z; [discriminate|].
    destruct (n =? 3)%Z; [discriminate|]. destruct (n =? 4)%Z; discriminate.
  - intros now service originalPrompt brokenCode w a E.
    destruct (@healCode_strategy now service originalPrompt brokenCode
                errors n w a E) as [H _].
    exact H.
Qed.

Lemma selectStrategy_by_ordinal_witness :
  (1 <= 3)%Z
  /\ selectStrategy sampleDefects 3 = simplify
  /\ selectStrategy sampleDefects 3 <> add_fallbacks
  /\ selectStrategy [] 3 = selectStrategy sampleDefects 3.
Proof.
  assert (H : (1 <= 3)%Z) by lia.
  split; [exact H|].
  destruct (selectStrategy_by_ordinal sampleDefects H)
    as (_ & _ & H3 & _ & _ & Hf & Hd & _).
  split; [apply H3; reflexivity|]. split; [exact Hf | apply Hd].
Defined.

(** C2: whatever the state of the engine, [healCode] called with an
    attempt ordinal above the maximum of 5 throws the error
    "Max healing attempts reached. Code could not be fixed.", appends no
    attempt to the history and sends no request to the generative
    service: the world is left exactly as it was. *)
Theorem healCode_beyond_maximum now service originalPrompt brokenCode errors
    n w :
  (5 < n)%Z ->
  exists w',
    healCode now service originalPrompt brokenCode errors n w
    = (Throw (Error
                (lit "Max healing attempts reached. Code could not be fixed.")),
       w')
    /\ attemptHistory (engine w') = attemptHistory (engine w)
    /\ sent w' = sent w
    /\ w' = w.
Proof.
  intros Hn. exists w. rewrite healCode_refused by exact Hn.
  repeat split.
Qed.

Lemma healCode_beyond_maximum_witness :
  (5 < 6)%Z /\
  exists w',
    healCode zeroClock sampleService (lit "a clock") sampleUnfinished
      sampleDefects 6 newWorld
    = (Throw (Error
                (lit "Max healing attempts reached. Code could not be fixed.")),
       w')
    /\ attemptHistory (engine w') = attemptHistory (engine newWorld)
    /\ sent w' = sent newWorld
    /\ w' = newWorld.
Proof.
  assert (H : (5 < 6)%Z) by lia.
  split; [exact H|].
  apply (healCode_beyond_maximum zeroClock sampleService (lit "a clock")
           sampleUnfinished sampleDefects newWorld H).
Defined.

(** C3, refuted as stated: when the generative service cannot be reached,
    [healCode] throws and the history is still empty afterwards; no
    attempt has been recorded for the failed call. *)
Lemma failed_request_records_no_attempt :
  exists w',
    healCode zeroClock failingService (lit "a clock") sampleUnfinished
      sampleDefects 1 newWorld
    = (Throw (Error (lit "LLM fix request failed: connection refused")), w')
    /\ List.length (sent w') = 1
    /\ attemptHistory (engine w') = []
    /\ ~ (exists a,
            attemptHistory (engine w')
            = attemptHistory (engine newWorld) ++ [a]
            /\ result a = None /\ success a = false).
Proof.
  eexists. split; [vm_compute; reflexivity|].
  split; [reflexivity|]. split; [reflexivity|].
  intros (a & E & _). discriminate E.
Qed.

(** C3, as amended: when the call to the generative service fails during
    [healCode] (attempt ordinal within the maximum), the request has been
    sent, the error "LLM fix request failed: ..." is thrown to the caller,
    and the history is left exactly as it was: no attempt is appended. *)
Theorem healCode_failed_request now service originalPrompt brokenCode errors
    n w text :
  (n <= 5)%Z ->
  service (sent w)
    (fixRequest
       (buildFixPrompt originalPrompt brokenCode errors
          (selectStrategy errors n) n) w)
  = inr text ->
  exists w',
    healCode now service originalPrompt brokenCode errors n w
    = (Throw (Error (lit "LLM fix request failed: " ++ text)), w')
    /\ sent w'
       = sent w
         ++ [fixRequest
               (buildFixPrompt originalPrompt brokenCode errors
                  (selectStrategy errors n) n) w]
    /\ attemptHistory (engine w') = attemptHistory (engine w)
    /\ engine w' = engine w.
Proof.
  intros Hn H. eexists.
  erewrite healCode_rejected; [|exact Hn|exact H].
  repeat split.
Qed.

Lemma healCode_failed_request_witness :
  (1 <= 5)%Z /\
  exists w',
    healCode zeroClock failingService (lit "a clock") sampleUnfinished
      sampleDefects 1 newWorld
    = (Throw (Error (lit "LLM fix request failed: " ++ lit "connection refused")),
       w')
    /\ attemptHistory (engine w') = attemptHistory (engine newWorld).
Proof.
  assert (H : (1 <= 5)%Z) by lia.
  split; [exact H|].
  destruct (healCode_failed_request zeroClock failingService (lit "a clock")
              sampleUnfinished sampleDefects newWorld H
              (text := lit "connection refused") eq_refl)
    as (w' & E & _ & Eh & _).
  exists w'. split; [exact E | exact Eh].
Defined.

(** C6: [markLastAttemptSuccess] returns and touches nothing but the
    history of the engine.  On an empty history it does nothing.
    Otherwise it sets [success] of the last attempt to [true], leaves the
    other fields of that attempt and all earlier attempts as they were.
    Consequently, in a session where attempts were only added by
    [healCode], after the mark exactly the last attempt of the history
    has [success = true] and every earlier one still has
    [success = false]. *)
Theorem markLastAttemptSuccess_frame w :
  exists w',
    markLastAttemptSuccess w = (Return tt, w')
    /\ clock w' = clock w /\ sent w' = sent w /\ detector w' = detector w
    /\ (attemptHistory (engine w) = [] -> w' = w)
    /\ (forall earlier a,
          attemptHistory (engine w) = earlier ++ [a] ->
          exists a',
            attemptHistory (engine w') = earlier ++ [a']
            /\ success a' = true
            /\ attemptNumber a' = attemptNumber a
            /\ strategy a' = strategy a
            /\ prompt a' = prompt a
            /\ result a' = result a
            /\ errors a' = errors a
            /\ attemptTimestamp a' = attemptTimestamp a)
    /\ (forall now service,
          afterHeals now service w ->
          List.length (attemptHistory (engine w'))
          = List.length (attemptHistory (engine w))
          /\ forall i a',
               nth_error (attemptHistory (engine w')) i = Some a' ->
               success a'
               = Nat.eqb (S i) (List.length (attemptHistory (engine w')))).
Proof.
  assert (Hcase : attemptHistory (engine w) = []
                  \/ exists earlier a,
                       attemptHistory (engine w) = earlier ++ [a]).
  { destruct (attemptHistory (engine w)) as [|x l]; [left; reflexivity|].
    right. destruct (@exists_last _ (x :: l)) as (earlier & a & El);
      [discriminate|].
    exists earlier, a. exact El. }
  destruct Hcase as [Eh | (earlier & a & Eh)].
  - exists w. rewrite markLastAttemptSuccess_empty by exact Eh.
    split; [reflexivity|]. split; [reflexivity|]. split; [reflexivity|].
    split; [reflexivity|]. split; [reflexivity|]. split.
    + intros earlier a E. rewrite Eh in E. destruct earlier; discriminate E.
    + intros now service _. split; [reflexivity|].
      intros i a' Hi. rewrite Eh in Hi. destruct i; discriminate Hi.
  - exists (set_engine (mkSelfHealingEngine (earlier ++ [setSuccess a])) w).
    rewrite (markLastAttemptSuccess_last w earlier a Eh).
    split; [reflexivity|]. split; [reflexivity|]. split; [reflexivity|].
    split; [reflexivity|]. split.
    + rewrite Eh. intros E. destruct earlier; discriminate E.
    + split.
      * rewrite Eh. intros earlier' a0 E.
        apply app_inj_tail in E. destruct E as [<- <-].
        exists (setSuccess a). repeat split.
      * intros now service Hs. simpl. rewrite Eh, !length_app.
        cbn [List.length]. rewrite !Nat.add_1_r. cbn [Nat.eqb].
        split; [reflexivity|].
        pose proof (afterHeals_unmarked Hs) as F. rewrite Eh in F.
        apply Forall_app in F. destruct F as [F _].
        rewrite Forall_forall in F.
        intros i a' Hi.
        destruct (Nat.lt_ge_cases i (List.length earlier)) as [Hlt|Hge].
        -- rewrite nth_error_app1 in Hi by exact Hlt.
           rewrite (F a' (nth_error_In _ _ Hi)).
           symmetry. apply Nat.eqb_neq. lia.
        -- rewrite nth_error_app2 in Hi by exact Hge.
           destruct (i - List.length earlier) as [|j] eqn:Ej; simpl in Hi.
           ++ inversion Hi; subst. simpl.
              symmetry. apply Nat.eqb_eq. lia.
           ++ destruct j; discriminate Hi.
Qed.

Lemma markLastAttemptSuccess_frame_witness :
  let w :=
    snd (healCode zeroClock sampleService (lit "a clock") sampleUnfinished
           sampleDefects 2
           (snd (healCode zeroClock sampleService (lit "a clock")
                   sampleUnfinished sampleDefects 1 newWorld))) in
  afterHeals zeroClock sampleService w /\
  exists w',
    markLastAttemptSuccess w = (Return tt, w')
    /\ List.map success (attemptHistory (engine w)) = [false; false]
    /\ List.length (attemptHistory (engine w')) = 2
    /\ forall i a',
         nth_error (attemptHistory (engine w')) i = Some a' ->
         success a' = Nat.eqb (S i) (List.length (attemptHistory (engine w'))).
Proof.
  intros w.
  assert (Hs : afterHeals zeroClock sampleService w).
  { apply afterHeals_heal, afterHeals_heal, afterHeals_start. reflexivity. }
  split; [exact Hs|].
  destruct (markLastAttemptSuccess_frame w)
    as (w' & E & _ & _ & _ & _ & _ & Hsession).
  destruct (Hsession zeroClock sampleService Hs) as [Hlen Hlast].
  exists w'. split; [exact E|]. split; [vm_compute; reflexivity|].
  split; [rewrite Hlen; vm_compute; reflexivity | exact Hlast].
Defined.

(* ================================================================== *)
(** * Stage 3 of the detector *)
(* ================================================================== *)

(** When no frame is attached, or the frame has no window or no
    document, the inspection returns one [render_error] defect. *)
Lemma analyzeRenderedOutput_unreachable now w :
  reachableDocument (detector w) = None ->
  analyzeRenderedOutput now w
  = (Return [mkDetectedError render_error
               (lit "Failed to render content in iframe")
               None None None (now (clock w))],
     set_clock (S (clock w)) w).
Proof.
  intros H. unfold analyzeRenderedOutput, bind, getDetector.
  rewrite H. reflexivity.
Qed.

(** When the document is reachable but has no body, the inspection pushes
    a [render_error] into its local array and then throws on
    [doc.body.innerText]. *)
Lemma analyzeRenderedOutput_bodyless now w doc :
  reachableDocument (detector w) = Some doc ->
  body doc = None ->
  analyzeRenderedOutput now w
  = (Throw (TypeError
              (lit "Cannot read properties of null (reading 'innerText')")),
     set_clock (S (clock w)) w).
Proof.
  intros H Hb. unfold analyzeRenderedOutput, bind, getDetector.
  rewrite H, Hb. reflexivity.
Qed.

(** C7, at the failing input: with a frame attached whose document has
    no body, [analyzeRenderedOutput] does not return a defect list; it
    throws a [TypeError] to its caller. *)
Lemma analyzeRenderedOutput_throws :
  reachableDocument (detector bodylessWorld) = Some bodylessDocument
  /\ body bodylessDocument = None
  /\ (exists e w', analyzeRenderedOutput zeroClock bodylessWorld = (Throw e, w'))
  /\ ~ (exists errs w',
          analyzeRenderedOutput zeroClock bodylessWorld = (Return errs, w')).
Proof.
  split; [reflexivity|]. split; [reflexivity|].
  rewrite (@analyzeRenderedOutput_bodyless zeroClock bodylessWorld
             bodylessDocument eq_refl eq_refl).
  split.
  - eexists; eexists; reflexivity.
  - intros (errs & w' & E). discriminate E.
Qed.

(* ================================================================== *)
(** * More on Stage 1: the tag scan *)
(* ================================================================== *)

Lemma eqb_eq s : forall t, JS.eqb s t = true <-> s = t.
Proof.
  induction s as [|a s IH]; intros [|b t]; simpl; split; intros H;
    try reflexivity; try discriminate.
  - apply andb_prop in H. destruct H as [Hab Hst].
    apply N.eqb_eq in Hab. apply IH in Hst. subst. reflexivity.
  - inversion H; subst. unfold char_eqb. rewrite N.eqb_refl. simpl.
    apply IH. reflexivity.
Qed.

Lemma eqb_refl s : JS.eqb s s = true.
Proof. apply eqb_eq. reflexivity. Qed.

Lemma eqb_neq s t : s <> t -> JS.eqb s t = false.
Proof.
  intros H. destruct (JS.eqb s t) eqn:E; [|reflexivity].
  apply eqb_eq in E. contradiction.
Qed.

Lemma lastIndexOf_None tags tag :
  lastIndexOf tags tag = None <-> ~ In tag tags.
Proof.
  induction tags as [|x rest IH]; simpl.
  - split; [intros _ []|reflexivity].
  - destruct (lastIndexOf rest tag) as [i|].
    + split; [discriminate|]. intros H. exfalso. apply H. right.
      destruct (in_dec (list_eq_dec N.eq_dec) tag rest) as [Hin|Hout];
        [exact Hin|]. apply IH in Hout. discriminate.
    + destruct (JS.eqb x tag) eqn:E.
      * split; [discriminate|]. intros H. exfalso. apply H. left.
        apply eqb_eq. exact E.
      * split; [|reflexivity]. intros _ [H|H].
        -- subst. rewrite eqb_refl in E. discriminate.
        -- apply (proj1 IH eq_refl). exact H.
Qed.

Lemma lastIndexOf_last before tag after :
  ~ In tag after ->
  lastIndexOf (before ++ tag :: after) tag = Some (List.length before).
Proof.
  intros H. induction before as [|x before IH]; simpl.
  - rewrite (proj2 (lastIndexOf_None after tag) H), eqb_refl. reflexivity.
  - rewrite IH. reflexivity.
Qed.

Lemma lastIndexOf_Some tags tag i :
  lastIndexOf tags tag = Some i ->
  exists before after,
    tags = before ++ tag :: after /\ List.length before = i /\ ~ In tag after.
Proof.
  revert i. induction tags as [|x rest IH]; intros i; simpl; [discriminate|].
  destruct (lastIndexOf rest tag) as [j|] eqn:E.
  - intros H. inversion H; subst.
    destruct (IH j eq_refl) as (before & after & -> & Hl & Hn).
    exists (x :: before), after. simpl. rewrite Hl. auto.
  - destruct (JS.eqb x tag) eqn:Ex; [|discriminate].
    intros H. inversion H; subst. apply eqb_eq in Ex. subst.
    exists [], rest. split; [reflexivity|]. split; [reflexivity|].
    apply lastIndexOf_None. exact E.
Qed.

Lemma splice1_middle (before : list jsstring) x after :
  splice1 (List.length before) (before ++ x :: after) = before ++ after.
Proof.
  unfold splice1. induction before as [|a before IH]; simpl; [reflexivity|].
  f_equal. exact IH.
Qed.

(** X1: a closing tag takes the most recent open tag of its name off
    [openTags] and leaves everything else in place, in order; in
    particular a tag that was just opened is taken off again.  A closing
    tag whose name is not on [openTags] leaves it as it is. *)
Theorem popTag_last before tag after :
  ~ In tag after ->
  popTag (before ++ tag :: after) tag = before ++ after
  /\ popTag (before ++ [tag]) tag = before
  /\ (~ In tag before -> popTag (before ++ after) tag = before ++ after).
Proof.
  intros H. split; [|split].
  - unfold popTag. rewrite lastIndexOf_last by exact H.
    apply splice1_middle.
  - unfold popTag. rewrite lastIndexOf_last by (intros []).
    rewrite splice1_middle. apply app_nil_r.
  - intros Hb. unfold popTag.
    rewrite (proj2 (lastIndexOf_None (before ++ after) tag)); [reflexivity|].
    intros Hin. apply in_app_or in Hin. tauto.
Qed.

Lemma popTag_last_witness :
  ~ In (lit "p") [lit "span"] /\
  popTag ([lit "div"; lit "p"] ++ lit "p" :: [lit "span"]) (lit "p")
  = [lit "div"; lit "p"] ++ [lit "span"].
Proof.
  assert (H : ~ In (lit "p") [lit "span"]).
  { intros [E|[]]. discriminate E. }
  split; [exact H|].
  apply (popTag_last [lit "div"; lit "p"] (lit "p") [lit "span"] H).
Defined.

Lemma popTag_cases openTags tag :
  (lastIndexOf openTags tag = None /\ popTag openTags tag = openTags)
  \/ (exists before after,
        lastIndexOf openTags tag = Some (List.length before)
        /\ openTags = before ++ tag :: after
        /\ popTag openTags tag = before ++ after).
Proof.
  unfold popTag. destruct (lastIndexOf openTags tag) as [i|] eqn:E.
  - right. destruct (lastIndexOf_Some _ _ E) as (b & a & -> & <- & Hn).
    exists b, a. split; [reflexivity|]. split; [reflexivity|].
    apply splice1_middle.
  - left. split; reflexivity.
Qed.

Lemma scan_balance closing : forall openTags,
  List.length (popAll openTags closing) + List.length closing
  = List.length openTags
    + List.length (unmatchedClosings openTags closing).
Proof.
  induction closing as [|tag rest IH]; intros openTags.
  - simpl. lia.
  - change (popAll openTags (tag :: rest))
      with (popAll (popTag openTags tag) rest).
    specialize (IH (popTag openTags tag)).
    cbn [unmatchedClosings List.length].
    destruct (popTag_cases openTags tag)
      as [[E P] | (b & a & E & Eo & P)]; rewrite E.
    + rewrite P in *. simpl. lia.
    + assert (Es : splice1 (List.length b) openTags = popTag openTags tag).
      { unfold popTag. rewrite E. reflexivity. }
      rewrite Es. rewrite P in *. rewrite Eo, length_app. simpl.
      rewrite length_app in IH. lia.
Qed.

Lemma tagReport_nil_balance code :
  tagReport code = [] ->
  List.length (closingTags code) = List.length (collectOpenTags code).
Proof.
  pose proof (scan_balance (closingTags code) (collectOpenTags code)) as B.
  unfold tagReport. intros H. apply app_eq_nil in H. destruct H as [Hu Hc].
  apply map_eq_nil in Hu. fold (unclosedTags code) in B.
  rewrite Hu in B. simpl in B.
  destruct (unclosedTags code) as [|t ts]; [simpl in B; lia|].
  discriminate Hc.
Qed.

(** X2: the books of the tag scan balance.  Every closing tag either
    takes one open tag away or is reported as unexpected, so the number
    of tags left unclosed plus the number of closing tags equals the
    number of opening tags plus the number of unexpected closing tags;
    when the scan reports nothing, opening and closing tags are
    equally many. *)
Theorem tag_scan_balance code :
  List.length (unclosedTags code) + List.length (closingTags code)
  = List.length (collectOpenTags code)
    + List.length (unmatchedClosings (collectOpenTags code)
                     (closingTags code))
  /\ (tagReport code = [] ->
      List.length (closingTags code) = List.length (collectOpenTags code)).
Proof.
  split; [apply scan_balance | apply tagReport_nil_balance].
Qed.

Lemma execAll_Forall (A : Type) (P : A -> Prop)
    (matchAt : jsstring -> option (A * nat)) s :
  (forall s' a len, matchAt s' = Some (a, len) -> P a) ->
  forall skip, Forall P (execAll matchAt skip s).
Proof.
  intros H. induction s as [|c s IH]; intros skip; simpl; [constructor|].
  destruct skip as [|k]; [|apply IH].
  destruct (matchAt (c :: s)) as [[a len]|] eqn:E; [|apply IH].
  constructor; [exact (H _ _ _ E) | apply IH].
Qed.

Lemma lowerChar_alnum c : isAlnum c = true -> isLowerAlnum (lowerChar c) = true.
Proof.
  unfold isAlnum, isLetter, isLowerAlnum, lowerChar, isUpper, isLower, isDigit.
  intros H.
  destruct (N.leb_spec 65 c), (N.leb_spec c 90), (N.leb_spec 97 c),
    (N.leb_spec c 122), (N.leb_spec 48 c), (N.leb_spec c 57);
    simpl in *; try discriminate;
    repeat match goal with
           | |- context [(?a <=? ?b)%N] => destruct (N.leb_spec a b)
           end; simpl; try reflexivity; try lia.
Qed.

Lemma lowerChar_letter c : isLetter c = true -> isLower (lowerChar c) = true.
Proof.
  unfold isLetter, lowerChar, isUpper, isLower.
  intros H.
  destruct (N.leb_spec 65 c), (N.leb_spec c 90), (N.leb_spec 97 c),
    (N.leb_spec c 122);
    simpl in *; try discriminate;
    repeat match goal with
           | |- context [(?a <=? ?b)%N] => destruct (N.leb_spec a b)
           end; simpl; try reflexivity; try lia.
Qed.

Lemma openTagAt_shape s name len :
  openTagAt s = Some (name, len) ->
  exists c rest, name = c :: rest /\ isLetter c = true
                 /\ Forall (fun d => isAlnum d = true) rest.
Proof.
  unfold openTagAt. destruct s as [|lt [|c s1]]; try discriminate.
  destruct ((lt =? 60)%N && isLetter c) eqn:E; [|discriminate].
  pose proof (span_Forall isAlnum s1) as F.
  destruct (span isAlnum s1) as [a s2]. simpl in F.
  destruct (wordBoundary s2); [|discriminate].
  destruct (throughGt s2) as [n|]; [|discriminate].
  intros H. inversion H; subst. exists c, a.
  apply andb_prop in E. destruct E as [_ E]. auto.
Qed.

Lemma closingTagAt_shape s name len :
  closingTagAt s = Some (name, len) ->
  exists c rest, name = c :: rest /\ isLetter c = true
                 /\ Forall (fun d => isAlnum d = true) rest.
Proof.
  unfold closingTagAt. destruct s as [|lt [|sl [|c s1]]]; try discriminate.
  destruct ((lt =? 60)%N && (sl =? 47)%N && isLetter c) eqn:E; [|discriminate].
  pose proof (span_Forall isAlnum s1) as F.
  destruct (span isAlnum s1) as [a s2]. simpl in F.
  destruct s2 as [|gt s2]; [discriminate|].
  destruct (gt =? 62)%N; [|discriminate].
  intros H. inversion H; subst. exists c, a.
  apply andb_prop in E. destruct E as [_ E]. auto.
Qed.

Lemma toLowerCase_shape c rest :
  isLetter c = true -> Forall (fun d => isAlnum d = true) rest ->
  tagNameShape (toLowerCase (c :: rest)).
Proof.
  intros Hc Hr. simpl. split; [apply lowerChar_letter; exact Hc|].
  induction Hr as [|d rest Hd _ IH]; simpl; constructor;
    [apply lowerChar_alnum; exact Hd | exact IH].
Qed.

Lemma lowered_matches_shape (matchAt : jsstring -> option (jsstring * nat)) s :
  (forall s' name len,
      matchAt s' = Some (name, len) ->
      exists c rest, name = c :: rest /\ isLetter c = true
                     /\ Forall (fun d => isAlnum d = true) rest) ->
  Forall tagNameShape (List.map toLowerCase (execAll matchAt 0 s)).
Proof.
  intros H. apply Forall_forall. intros tag Hin.
  apply in_map_iff in Hin. destruct Hin as (name & <- & Hin).
  pose proof (execAll_Forall
                (fun name => exists c rest,
                     name = c :: rest /\ isLetter c = true
                     /\ Forall (fun d => isAlnum d = true) rest)
                matchAt s H 0) as F.
  rewrite Forall_forall in F.
  destruct (F name Hin) as (c & rest & -> & Hc & Hr).
  apply toLowerCase_shape; assumption.
Qed.

Lemma popAll_In closing : forall openTags tag,
  In tag (popAll openTags closing) -> In tag openTags.
Proof.
  induction closing as [|c rest IH]; intros openTags tag H; [exact H|].
  change (popAll openTags (c :: rest))
    with (popAll (popTag openTags c) rest) in H.
  apply IH in H.
  destruct (popTag_cases openTags c) as [[_ P] | (b & a & _ & Eo & P)];
    rewrite P in H; [exact H|].
  rewrite Eo. apply in_or_app. apply in_app_or in H.
  destruct H; [left | right; right]; assumption.
Qed.

(** X3: the names the tag scan works with are clean.  Every opening and
    closing tag name it keeps starts with a lower-case ASCII letter and
    continues with lower-case letters and digits, whatever the case used
    in the text; and a tag reported as unclosed is never one of the void
    tags [br], [hr], [img], [input], [meta], [link]. *)
Theorem tag_names_shape code :
  Forall tagNameShape (collectOpenTags code)
  /\ Forall tagNameShape (closingTags code)
  /\ Forall (fun tag => tagNameShape tag
                        /\ includesTag voidTags tag = false
                        /\ In tag (collectOpenTags code))
       (unclosedTags code).
Proof.
  assert (Ho : Forall tagNameShape (collectOpenTags code)).
  { unfold collectOpenTags. apply Forall_forall. intros tag Hin.
    apply filter_In in Hin. destruct Hin as [Hin _].
    pose proof (lowered_matches_shape openTagAt code openTagAt_shape) as F.
    rewrite Forall_forall in F. apply F. exact Hin. }
  split; [exact Ho|]. split.
  - apply lowered_matches_shape. exact closingTagAt_shape.
  - apply Forall_forall. intros tag Hin.
    apply popAll_In in Hin.
    rewrite Forall_forall in Ho. split; [apply Ho; exact Hin|].
    split; [|exact Hin].
    unfold collectOpenTags in Hin. apply filter_In in Hin.
    destruct Hin as [_ Hv]. apply negb_true_iff in Hv. exact Hv.
Qed.

(* ================================================================== *)
(** * More on Stage 1: when it is clean, and what it counts *)
(* ================================================================== *)

Lemma reportIf_nil cond ty msg : reportIf cond ty msg = [] <-> cond = false.
Proof. destruct cond; simpl; split; intros H; try reflexivity; discriminate. Qed.

Lemma scriptReport_nil script : scriptReport script = [] <-> scriptPasses script.
Proof.
  unfold scriptReport, scriptPasses.
  set (jsCode := removeAll scriptTagAt 0 script).
  split.
  - intros H. apply app_eq_nil in H. destruct H as [H1 H].
    apply app_eq_nil in H. destruct H as [H2 H3].
    apply reportIf_nil in H1, H2, H3.
    apply negb_false_iff, Nat.eqb_eq in H2.
    apply negb_false_iff, Nat.eqb_eq in H3.
    split; [|split; assumption].
    intros Hf. rewrite Hf in H1. simpl in H1.
    apply negb_false_iff in H1. exact H1.
  - intros (H1 & H2 & H3).
    rewrite H2, H3, !Nat.eqb_refl. simpl.
    destruct (includes jsCode (lit "function (")); [|reflexivity].
    rewrite (H1 eq_refl). reflexivity.
Qed.

Lemma flat_map_nil (A B : Type) (f : A -> list B) l :
  flat_map f l = [] <-> Forall (fun a => f a = []) l.
Proof.
  induction l as [|a l IH]; simpl.
  - split; [constructor|reflexivity].
  - split.
    + intros H. apply app_eq_nil in H. destruct H as [Ha Hl].
      constructor; [exact Ha | apply IH; exact Hl].
    + intros H. inversion H; subst. rewrite H2. apply IH. exact H3.
Qed.

Lemma stamp_nil now k l : stamp now k l = [] <-> l = [].
Proof.
  destruct l as [|[ty msg] l]; simpl; split; intros H;
    try reflexivity; discriminate.
Qed.

(** X4: Stage 1 returns no defect exactly when the text contains
    [<!DOCTYPE html>], [<html], [</html>] and [<body], every closing tag
    found an open tag of its name, no tag is left open, and every script
    region has as many [{] as [}], as many [(] as [)] and no
    [function (] without a [)].  Such a text has as many closing tags as
    non-void opening tags. *)
Theorem stage1_clean_iff now code w :
  exists errs w',
    detectSyntaxErrors now code w = (Return errs, w')
    /\ (errs = [] <->
        includes code (lit "<!DOCTYPE html>") = true
        /\ includes code (lit "<html") = true
        /\ includes code (lit "</html>") = true
        /\ includes code (lit "<body") = true
        /\ unmatchedClosings (collectOpenTags code) (closingTags code) = []
        /\ unclosedTags code = []
        /\ Forall scriptPasses (scriptMatches code))
    /\ (errs = [] ->
        List.length (closingTags code) = List.length (collectOpenTags code)).
Proof.
  stage1_returns.
  assert (Hiff : report code = [] <->
        includes code (lit "<!DOCTYPE html>") = true
        /\ includes code (lit "<html") = true
        /\ includes code (lit "</html>") = true
        /\ includes code (lit "<body") = true
        /\ unmatchedClosings (collectOpenTags code) (closingTags code) = []
        /\ unclosedTags code = []
        /\ Forall scriptPasses (scriptMatches code)).
  { unfold report, headReport, tagReport, tailReport. split.
    - intros H.
      repeat match goal with
             | H : _ ++ _ = [] |- _ =>
                 apply app_eq_nil in H; destruct H
             end.
      repeat match goal with
             | H : reportIf _ _ _ = [] |- _ => apply reportIf_nil in H
             end.
      repeat match goal with
             | H : negb _ = false |- _ => apply negb_false_iff in H
             end.
      repeat split; try assumption.
      + eapply map_eq_nil; eassumption.
      + destruct (unclosedTags code); [reflexivity|discriminate].
      + match goal with
        | H : flat_map _ _ = [] |- _ => apply flat_map_nil in H
        end.
        eapply Forall_impl; [|eassumption].
        intros script Hs. apply scriptReport_nil. exact Hs.
    - intros (H1 & H2 & H3 & H4 & H5 & H6 & H7).
      rewrite H1, H2, H3, H4, H5, H6. simpl. rewrite app_nil_r.
      apply flat_map_nil. eapply Forall_impl; [|exact H7].
      intros script Hs. apply scriptReport_nil. exact Hs. }
  split.
  - rewrite stamp_nil. exact Hiff.
  - rewrite stamp_nil. intros H.
    apply tagReport_nil_balance.
    unfold report in H. apply app_eq_nil in H. destruct H as [_ H].
    apply app_eq_nil in H. destruct H as [H _]. exact H.
Qed.

Lemma stage1_clean_iff_witness :
  exists errs w',
    detectSyntaxErrors zeroClock sampleClean newWorld = (Return errs, w')
    /\ errs = []
    /\ List.length (closingTags sampleClean)
       = List.length (collectOpenTags sampleClean).
Proof.
  destruct (stage1_clean_iff zeroClock sampleClean newWorld)
    as (errs & w' & E & Hiff & Hlen).
  assert (Hclean : errs = []).
  { apply Hiff.
    split; [vm_compute; reflexivity|]. split; [vm_compute; reflexivity|].
    split; [vm_compute; reflexivity|]. split; [vm_compute; reflexivity|].
    split; [vm_compute; reflexivity|]. split; [vm_compute; reflexivity|].
    assert (Es : scriptMatches sampleClean
                 = [lit "<script>function f() { return (1); }</script>"])
      by (vm_compute; reflexivity).
    rewrite Es. constructor; [|constructor].
    unfold scriptPasses.
    split; [intros _; vm_compute; reflexivity|].
    split; vm_compute; reflexivity. }
  exists errs, w'. split; [exact E|]. split; [exact Hclean|].
  apply Hlen. exact Hclean.
Defined.

Lemma hasMessage_stamped msg ty m t :
  hasMessage msg (mkDetectedError ty m None None None t)
  = messageReport msg (ty, m).
Proof. reflexivity. Qed.

Lemma stamp_filter_length now (p : DetectedError -> bool)
    (q : Report -> bool) l k :
  (forall ty msg t, p (mkDetectedError ty msg None None None t) = q (ty, msg)) ->
  List.length (List.filter p (stamp now k l)) = List.length (List.filter q l).
Proof.
  intros H. pose proof (stamp_filter now p q l H k) as E.
  apply (f_equal (@List.length _)) in E. rewrite !length_map in E. exact E.
Qed.

Lemma report_doctype code :
  List.filter (messageReport (lit "Missing DOCTYPE declaration")) (report code)
  = reportIf (negb (includes code (lit "<!DOCTYPE html>")))
      syntax_error (lit "Missing DOCTYPE declaration")
    ++ reportIf (negb (includes code (lit "<!DOCTYPE html>")))
         syntax_error (lit "Missing DOCTYPE declaration").
Proof.
  unfold report, headReport, tagReport, tailReport.
  rewrite !filter_app.
  rewrite !(@filter_reportIf_in _ _ _ (lit "Missing DOCTYPE declaration"))
    by reflexivity.
  rewrite !filter_reportIf_out by reflexivity.
  rewrite (@filter_nothing _ _ (List.map unexpectedClosing _))
    by (apply Forall_forall; intros r Hr; apply in_map_iff in Hr;
        destruct Hr as (tag & <- & _); reflexivity).
  rewrite filter_flat_map_nothing
    by (intros script; unfold scriptReport; rewrite !filter_app;
        rewrite !filter_reportIf_out by reflexivity; reflexivity).
  rewrite ?app_nil_r. reflexivity.
Qed.

Lemma report_html code :
  List.filter (messageReport (lit "Missing <html> tag")) (report code)
  = reportIf (negb (includes code (lit "<html")))
      syntax_error (lit "Missing <html> tag")
    ++ reportIf (negb (includes code (lit "<html")))
         syntax_error (lit "Missing <html> tag").
Proof.
  unfold report, headReport, tagReport, tailReport.
  rewrite !filter_app.
  rewrite !(@filter_reportIf_in _ _ _ (lit "Missing <html> tag"))
    by reflexivity.
  rewrite !filter_reportIf_out by reflexivity.
  rewrite (@filter_nothing _ _ (List.map unexpectedClosing _))
    by (apply Forall_forall; intros r Hr; apply in_map_iff in Hr;
        destruct Hr as (tag & <- & _); reflexivity).
  rewrite filter_flat_map_nothing
    by (intros script; unfold scriptReport; rewrite !filter_app;
        rewrite !filter_reportIf_out by reflexivity; reflexivity).
  rewrite ?app_nil_r. reflexivity.
Qed.

Lemma report_body code :
  List.filter (messageReport (lit "Missing <body> tag")) (report code)
  = reportIf (negb (includes code (lit "<body")))
      syntax_error (lit "Missing <body> tag").
Proof.
  unfold report, headReport, tagReport, tailReport.
  rewrite !filter_app.
  rewrite !(@filter_reportIf_in _ _ _ (lit "Missing <body> tag"))
    by reflexivity.
  rewrite !filter_reportIf_out by reflexivity.
  rewrite (@filter_nothing _ _ (List.map unexpectedClosing _))
    by (apply Forall_forall; intros r Hr; apply in_map_iff in Hr;
        destruct Hr as (tag & <- & _); reflexivity).
  rewrite filter_flat_map_nothing
    by (intros script; unfold scriptReport; rewrite !filter_app;
        rewrite !filter_reportIf_out by reflexivity; reflexivity).
  rewrite ?app_nil_r. reflexivity.
Qed.

(** X5: how often Stage 1 reports each missing piece of structure.  A
    text without [<!DOCTYPE html>] gets the defect
    "Missing DOCTYPE declaration" twice and a text without [<html] gets
    "Missing <html> tag" twice, because both checks are made near the
    start and again near the end; a text without [<body] gets
    "Missing <body> tag" once.  A text that has the piece gets none. *)
Theorem structure_defect_counts now code w :
  exists errs w',
    detectSyntaxErrors now code w = (Return errs, w')
    /\ List.length
         (List.filter (hasMessage (lit "Missing DOCTYPE declaration")) errs)
       = (if includes code (lit "<!DOCTYPE html>") then 0 else 2)
    /\ List.length
         (List.filter (hasMessage (lit "Missing <html> tag")) errs)
       = (if includes code (lit "<html") then 0 else 2)
    /\ List.length
         (List.filter (hasMessage (lit "Missing <body> tag")) errs)
       = (if includes code (lit "<body") then 0 else 1).
Proof.
  stage1_returns. split; [|split].
  - rewrite (stamp_filter_length now _
               (messageReport (lit "Missing DOCTYPE declaration")))
      by (intros; apply hasMessage_stamped).
    rewrite report_doctype.
    destruct (includes code (lit "<!DOCTYPE html>")); reflexivity.
  - rewrite (stamp_filter_length now _
               (messageReport (lit "Missing <html> tag")))
      by (intros; apply hasMessage_stamped).
    rewrite report_html.
    destruct (includes code (lit "<html")); reflexivity.
  - rewrite (stamp_filter_length now _
               (messageReport (lit "Missing <body> tag")))
      by (intros; apply hasMessage_stamped).
    rewrite report_body.
    destruct (includes code (lit "<body")); reflexivity.
Qed.

Lemma stamp_timestamps now l : forall k,
  List.map timestamp (stamp now k l)
  = List.map now (seq k (List.length l)).
Proof.
  induction l as [|[ty msg] l IH]; intros k; simpl; [reflexivity|].
  rewrite IH. reflexivity.
Qed.

Lemma stamp_length now l : forall k,
  List.length (stamp now k l) = List.length l.
Proof.
  induction l as [|[ty msg] l IH]; intros k; simpl; [reflexivity|].
  rewrite IH. reflexivity.
Qed.

(** X6: Stage 1 reads the clock once for each defect it returns and at no
    other time: the defects carry consecutive readings in the order of
    the list, and a clean run does not read the clock at all.  It sends
    nothing to the generative service and leaves the engine alone. *)
Theorem stage1_clock now code w :
  exists errs w',
    detectSyntaxErrors now code w = (Return errs, w')
    /\ clock w' = clock w + List.length errs
    /\ List.map timestamp errs
       = List.map now (seq (clock w) (List.length errs))
    /\ sent w' = sent w
    /\ engine w' = engine w.
Proof.
  stage1_returns. rewrite stamp_length, stamp_timestamps. repeat split.
Qed.

(* ================================================================== *)
(** * More on Stage 3 and on the buffer *)
(* ================================================================== *)

Lemma analyzeRenderedOutput_run now w doc b :
  reachableDocument (detector w) = Some doc ->
  body doc = Some b ->
  analyzeRenderedOutput now w
  = (Return (stamp now (clock w) (renderReport doc b)),
     set_clock (clock w + List.length (renderReport doc b)) w).
Proof.
  intros Hd Hb.
  transitivity
    (analyzeRenderedOutput now
       (set_clock (clock w + List.length (@nil Report)) w)).
  { simpl. rewrite Nat.add_0_r, set_clock_same. reflexivity. }
  unfold analyzeRenderedOutput.
  erewrite bind_Return by reflexivity.
  change (detector (set_clock _ w)) with (detector w).
  rewrite Hd, Hb.
  change (@nil DetectedError) with (stamp now (clock w) []).
  do 3 (erewrite bind_Return by apply pushIf_run).
  erewrite bind_Return by apply pushIf_run.
  unfold ret, renderReport, imageFailed.
  rewrite <- !app_assoc. reflexivity.
Qed.

Lemma renderReport_length doc b : List.length (renderReport doc b) <= 4.
Proof.
  unfold renderReport. rewrite !length_app.
  repeat match goal with
         | |- context [reportIf ?c ?ty ?msg] =>
             let n := fresh "n" in
             let H := fresh "H" in
             assert (H : List.length (reportIf c ty msg) <= 1)
               by (destruct c; simpl; lia);
             set (n := List.length (reportIf c ty msg)) in *; clearbody n
         end.
  lia.
Qed.

(** X7: on a reachable document that has a body, [analyzeRenderedOutput]
    returns (it does not throw) at most four defects, in a fixed order of
    kinds: [render_error], [runtime_error], [missing_dependency],
    [layout_broken], each at most once and none of kind [syntax_error],
    [incomplete_code] or [llm_generation_error]. *)
Theorem stage3_kinds now w doc b :
  reachableDocument (detector w) = Some doc ->
  body doc = Some b ->
  exists errs w',
    analyzeRenderedOutput now w = (Return errs, w')
    /\ List.length errs <= 4
    /\ (exists r u m l : bool,
          List.map type errs
          = (if r then [render_error] else [])
            ++ (if u then [runtime_error] else [])
            ++ (if m then [missing_dependency] else [])
            ++ (if l then [layout_broken] else []))
    /\ Forall (fun e => type e <> syntax_error
                        /\ type e <> incomplete_code
                        /\ type e <> llm_generation_error) errs.
Proof.
  intros Hd Hb. rewrite (analyzeRenderedOutput_run now w Hd Hb).
  eexists; eexists. split; [reflexivity|].
  unfold renderReport.
  set (r := Nat.eqb _ 0). set (u := orb _ _).
  set (m := Nat.ltb 0 _). set (l := Nat.ltb _ _).
  set (m1 := lit "Document body is empty - nothing rendered").
  set (m2 := lit "Error messages visible in rendered output").
  set (m3 := ofNat _ ++ _).
  set (m4 := lit "Many elements appear unstyled - possible CSS issues").
  split; [|split].
  - rewrite stamp_length. destruct r, u, m, l; simpl; lia.
  - exists r, u, m, l. destruct r, u, m, l; reflexivity.
  - apply (stamp_Forall now
             (fun ty => ty <> syntax_error /\ ty <> incomplete_code
                        /\ ty <> llm_generation_error)).
    repeat (apply Forall_app; split);
      apply Forall_reportIf; simpl; repeat split; discriminate.
Qed.

Lemma stage3_kinds_witness :
  reachableDocument (detector sampleRenderedWorld) = Some sampleDocument /\
  exists errs w',
    analyzeRenderedOutput zeroClock sampleRenderedWorld = (Return errs, w')
    /\ List.length errs <= 4.
Proof.
  split; [reflexivity|].
  destruct (@stage3_kinds zeroClock sampleRenderedWorld sampleDocument
              {| innerHTML := lit "  ";
                 innerText := lit "Uncaught TypeError: x is undefined" |}
              eq_refl eq_refl)
    as (errs & w' & E & Hlen & _).
  exists errs, w'. split; [exact E | exact Hlen].
Defined.

Lemma existsb_stamp now (ty : ErrorType) l : forall k,
  existsb (hasType ty) (stamp now k l)
  = existsb (fun r : Report => ErrorType_eqb (fst r) ty) l.
Proof.
  induction l as [|[ty' msg] l IH]; intros k; simpl; [reflexivity|].
  rewrite IH. reflexivity.
Qed.

(** X8: which defect Stage 3 reports when, on a reachable document with a
    body.  A [render_error] is reported exactly when the body's markup is
    empty or blank; a [missing_dependency] exactly when some image is not
    complete or has natural width 0, and its message starts with the
    number of such images; a [layout_broken] exactly when more than half
    of all elements count as unstyled, hence never when the document has
    no default view. *)
Theorem stage3_conditions now w doc b :
  reachableDocument (detector w) = Some doc ->
  body doc = Some b ->
  exists errs w',
    analyzeRenderedOutput now w = (Return errs, w')
    /\ existsb (hasType render_error) errs
       = Nat.eqb (List.length (trim (innerHTML b))) 0
    /\ existsb (hasType missing_dependency) errs
       = existsb imageFailed (images doc)
    /\ (forall e, In e errs -> type e = missing_dependency ->
          message e
          = ofNat (List.length (List.filter imageFailed (images doc)))
            ++ lit " image(s) failed to load")
    /\ existsb (hasType layout_broken) errs
       = Nat.ltb (List.length (allElements doc))
           (2 * List.length (List.filter (isUnstyled doc) (allElements doc)))
    /\ (defaultView doc = false ->
        existsb (hasType layout_broken) errs = false).
Proof.
  intros Hd Hb. rewrite (analyzeRenderedOutput_run now w Hd Hb).
  eexists; eexists. split; [reflexivity|].
  rewrite !existsb_stamp.
  unfold renderReport.
  set (r := Nat.eqb _ 0). set (u := orb _ _).
  set (l := Nat.ltb (List.length (allElements doc)) _).
  set (m3 := ofNat _ ++ _).
  assert (Hm : Nat.ltb 0 (List.length (List.filter imageFailed (images doc)))
               = existsb imageFailed (images doc)).
  { induction (images doc) as [|img imgs IH]; simpl; [reflexivity|].
    destruct (imageFailed img); simpl; [reflexivity | exact IH]. }
  split; [|split; [|split; [|split]]].
  - destruct r, u, (Nat.ltb 0 _), l; reflexivity.
  - rewrite <- Hm. destruct r, u, (Nat.ltb 0 _), l; reflexivity.
  - intros e Hin Hty. apply stamp_In in Hin.
    destruct Hin as (i & ty & msg & Hi & ->). simpl in Hty. subst ty.
    simpl. apply nth_error_In in Hi.
    repeat (apply in_app_or in Hi; destruct Hi as [Hi|Hi]);
      match type of Hi with
      | In _ (reportIf ?c _ _) => destruct c; simpl in Hi
      end;
      try contradiction; destruct Hi as [Hi|[]];
      inversion Hi; reflexivity.
  - destruct r, u, (Nat.ltb 0 _), l; reflexivity.
  - intros Hv.
    assert (Hl : l = false).
    { subst l. apply Nat.ltb_ge.
      replace (List.filter (isUnstyled doc) (allElements doc))
        with (@nil Element); [simpl; lia|].
      symmetry. apply filter_nothing. apply Forall_forall. intros el _.
      unfold isUnstyled. rewrite Hv. reflexivity. }
    rewrite Hl. destruct r, u, (Nat.ltb 0 _); reflexivity.
Qed.

Lemma stage3_conditions_witness :
  reachableDocument (detector sampleRenderedWorld) = Some sampleDocument /\
  exists errs w',
    analyzeRenderedOutput zeroClock sampleRenderedWorld = (Return errs, w')
    /\ existsb (hasType render_error) errs = true
    /\ existsb (hasType missing_dependency) errs = true
    /\ existsb (hasType layout_broken) errs = false.
Proof.
  split; [reflexivity|].
  destruct (@stage3_conditions zeroClock sampleRenderedWorld sampleDocument
              {| innerHTML := lit "  ";
                 innerText := lit "Uncaught TypeError: x is undefined" |}
              eq_refl eq_refl)
    as (errs & w' & E & Hr & Hm & _ & Hl & _).
  exists errs, w'. split; [exact E|].
  split; [rewrite Hr; reflexivity|].
  split; [rewrite Hm; reflexivity | rewrite Hl; reflexivity].
Defined.

Lemma stage3_frame_detector now w :
  detector (snd (analyzeRenderedOutput now w)) = detector w
  /\ clock w <= clock (snd (analyzeRenderedOutput now w)) <= clock w + 4
  /\ engine (snd (analyzeRenderedOutput now w)) = engine w
  /\ sent (snd (analyzeRenderedOutput now w)) = sent w.
Proof.
  destruct (reachableDocument (detector w)) as [doc|] eqn:Hd.
  - destruct (body doc) as [b|] eqn:Hb.
    + pose proof (renderReport_length doc b) as Hlen.
      rewrite (analyzeRenderedOutput_run now w Hd Hb).
      simpl. repeat split; lia.
    + rewrite (analyzeRenderedOutput_bodyless now w Hd Hb).
      simpl. repeat split; lia.
  - rewrite (analyzeRenderedOutput_unreachable now w Hd).
    simpl. repeat split; lia.
Qed.

(** X9: in every case, whether it returns or throws,
    [analyzeRenderedOutput] leaves the detector as it was: it neither
    adds its defects to the runtime buffer nor takes anything out of it.
    It reads the clock at most four times and touches nothing else. *)
Theorem stage3_frame now w :
  let w' := snd (analyzeRenderedOutput now w) in
  detector w' = detector w
  /\ engine w' = engine w
  /\ sent w' = sent w
  /\ clock w <= clock w' <= clock w + 4
  /\ fst (getErrors w') = fst (getErrors w).
Proof.
  destruct (stage3_frame_detector now w) as (Hd & Hc & He & Hs).
  cbn zeta. split; [exact Hd|]. split; [exact He|]. split; [exact Hs|].
  split; [exact Hc|].
  unfold getErrors, bind, getDetector, ret. simpl. rewrite Hd. reflexivity.
Qed.

Lemma Forall_snoc (A : Type) (P : A -> Prop) l a :
  Forall P l -> P a -> Forall P (l ++ [a]).
Proof. intros Hl Ha. apply Forall_app. split; [exact Hl|]. auto. Qed.

(** X10: only the listeners of Stage 2 ever write to the runtime buffer,
    and they write defects of kind [runtime_error].  So whatever methods
    and listeners have run on a detector, in whatever order, its buffer
    holds [runtime_error] defects only, and [hasCriticalErrors], which
    looks for [syntax_error], [incomplete_code] or [render_error] in the
    buffer, answers [false]. *)
Theorem errorLog_runtime_only now w :
  detectorRuns now w ->
  Forall (fun e => type e = runtime_error) (errorLog (detector w))
  /\ hasCriticalErrors w = (Return false, w).
Proof.
  intros H.
  assert (F : Forall (fun e => type e = runtime_error)
                (errorLog (detector w))).
  { induction H as [w E | w code _ IH | w f _ IH | w args _ IH
                    | w event _ IH | w reason _ IH | w _ IH | w _ IH
                    | w _ IH | w _ IH | w w' _ IH E].
    - rewrite E. constructor.
    - rewrite detectSyntaxErrors_run. exact IH.
    - exact IH.
    - simpl. apply Forall_snoc; [exact IH | reflexivity].
    - simpl. apply Forall_snoc; [exact IH | reflexivity].
    - simpl. apply Forall_snoc; [exact IH | reflexivity].
    - destruct (stage3_frame_detector now w) as [E _]. rewrite E. exact IH.
    - exact IH.
    - simpl. constructor.
    - exact IH.
    - rewrite E. exact IH. }
  split; [exact F|].
  unfold hasCriticalErrors, bind, getDetector, ret. simpl.
  f_equal. f_equal.
  induction F as [|e l He _ IH]; simpl; [reflexivity|].
  rewrite He, IH. reflexivity.
Qed.

Lemma errorLog_runtime_only_witness :
  let w :=
    snd (onUnhandledRejection zeroClock (lit "timeout")
           (snd (detectSyntaxErrors zeroClock sampleUnbalanced
                   (snd (onConsoleError zeroClock [lit "boom"; lit "42"]
                           (snd (monitorIframe sampleFrame newWorld))))))) in
  detectorRuns zeroClock w
  /\ List.length (errorLog (detector w)) = 2
  /\ hasCriticalErrors w = (Return false, w).
Proof.
  intros w.
  assert (H : detectorRuns zeroClock w).
  { apply runs_onUnhandledRejection, runs_detectSyntaxErrors,
      runs_onConsoleError, runs_monitorIframe, runs_start. reflexivity. }
  split; [exact H|]. split; [vm_compute; reflexivity|].
  apply (errorLog_runtime_only H).
Defined.

(* ================================================================== *)
(** * More on the healing engine *)
(* ================================================================== *)

(** X11: what a call of [healCode] leaves behind.  When it returns, the
    history has grown by exactly one attempt, placed last, which holds
    the ordinal and the defects of the call, the strategy chosen for the
    ordinal, [success = false], the returned code as its result and, as
    its prompt, the very prompt of the one request that was sent.  When
    it throws, the history is unchanged.  In both cases the detector is
    left alone. *)
Theorem healCode_record now service originalPrompt brokenCode errs n w :
  let run := healCode now service originalPrompt brokenCode errs n w in
  detector (snd run) = detector w
  /\ match fst run with
     | Return fixedCode =>
         exists a r,
           attemptHistory (engine (snd run))
           = attemptHistory (engine w) ++ [a]
           /\ sent (snd run) = sent w ++ [r]
           /\ attemptNumber a = n
           /\ strategy a = selectStrategy errs n
           /\ prompt a = arg_prompt r
           /\ result a = Some fixedCode
           /\ success a = false
           /\ errors a = Some errs
           /\ attemptTimestamp a = now (clock w)
           /\ (n <= 5)%Z
     | Throw _ =>
         attemptHistory (engine (snd run)) = attemptHistory (engine w)
     end.
Proof.
  intros run. subst run.
  destruct (Z.ltb_spec maxAttempts n) as [Hn|Hn].
  - rewrite healCode_refused by exact Hn. split; reflexivity.
  - destruct (service (sent w)
                (fixRequest
                   (buildFixPrompt originalPrompt brokenCode errs
                      (selectStrategy errs n) n) w))
      as [response|text] eqn:E.
    + erewrite healCode_resolved; [|exact Hn|exact E]. simpl.
      split; [reflexivity|]. eexists. eexists.
      split; [reflexivity|]. split; [reflexivity|].
      repeat split. exact Hn.
    + erewrite healCode_rejected; [|exact Hn|exact E]. split; reflexivity.
Qed.

(** X12: a call of [healCode] with an ordinal of at most 5 sends exactly
    one request to the generative service, whatever the service answers:
    the command [generate_vibe_with_healing], marked as a fix attempt,
    with the prompt built for the call.  The attempt number it carries
    is the number of attempts recorded so far plus one, not the ordinal
    of the call. *)
Theorem healCode_request now service originalPrompt brokenCode errs n w :
  (n <= 5)%Z ->
  exists r,
    sent (snd (healCode now service originalPrompt brokenCode errs n w))
    = sent w ++ [r]
    /\ command r = lit "generate_vibe_with_healing"
    /\ is_fix_attempt r = true
    /\ arg_prompt r
       = buildFixPrompt originalPrompt brokenCode errs
           (selectStrategy errs n) n
    /\ attempt_number r
       = (Z.of_nat (List.length (attemptHistory (engine w))) + 1)%Z.
Proof.
  intros Hn.
  exists (fixRequest
            (buildFixPrompt originalPrompt brokenCode errs
               (selectStrategy errs n) n) w).
  split; [|repeat split].
  destruct (service (sent w)
              (fixRequest
                 (buildFixPrompt originalPrompt brokenCode errs
                    (selectStrategy errs n) n) w))
    as [response|text] eqn:E.
  - erewrite healCode_resolved; [|exact Hn|exact E]. reflexivity.
  - erewrite healCode_rejected; [|exact Hn|exact E]. reflexivity.
Qed.

Lemma healCode_request_witness :
  (3 <= 5)%Z /\
  exists r,
    sent (snd (healCode zeroClock failingService (lit "a clock")
                 sampleUnfinished sampleDefects 3 newWorld))
    = sent newWorld ++ [r]
    /\ is_fix_attempt r = true
    /\ attempt_number r = 1%Z.
Proof.
  assert (H : (3 <= 5)%Z) by lia.
  split; [exact H|].
  destruct (healCode_request zeroClock failingService (lit "a clock")
              sampleUnfinished sampleDefects newWorld H)
    as (r & Es & _ & Ef & _ & En).
  exists r. split; [exact Es|]. split; [exact Ef | exact En].
Defined.

Lemma healCode_appended now service originalPrompt brokenCode errs n w a :
  attemptHistory
    (engine (snd (healCode now service originalPrompt brokenCode errs n w)))
  = attemptHistory (engine w) ++ [a] ->
  (n <= 5)%Z
  /\ attemptNumber a = n
  /\ strategy a = selectStrategy errs n
  /\ prompt a = buildFixPrompt originalPrompt brokenCode errs
                  (selectStrategy errs n) n
  /\ (exists code, result a = Some code)
  /\ errors a = Some errs
  /\ success a = false.
Proof.
  assert (Hlen : forall h : list FixAttempt, h <> h ++ [a]).
  { intros h E. apply (f_equal (@List.length _)) in E.
    rewrite length_app in E. simpl in E. lia. }
  destruct (Z.ltb_spec maxAttempts n) as [Hn|Hn].
  - rewrite healCode_refused by exact Hn. intros E. destruct (Hlen _ E).
  - destruct (service (sent w)
                (fixRequest
                   (buildFixPrompt originalPrompt brokenCode errs
                      (selectStrategy errs n) n) w))
      as [response|text] eqn:E.
    + erewrite healCode_resolved; [|exact Hn|exact E]. simpl. intros Ea.
      apply app_inj_tail in Ea. destruct Ea as [_ <-]. simpl.
      split; [exact Hn|]. repeat split. eexists. reflexivity.
    + erewrite healCode_rejected; [|exact Hn|exact E]. simpl. intros Ea.
      destruct (Hlen _ Ea).
Qed.

(** X13: what every attempt of a history looks like, in a session where
    attempts are only added by [healCode] and none is marked yet.  Its
    ordinal is at most 5, its strategy is the one the escalation order
    gives for its ordinal, its prompt is the prompt built from the
    arguments of its call, it has a result and a defect list, and it is
    not successful. *)
Theorem history_well_formed now service w :
  afterHeals now service w ->
  Forall (fun a =>
            (attemptNumber a <= 5)%Z
            /\ strategy a = selectStrategy [] (attemptNumber a)
            /\ (exists code, result a = Some code)
            /\ (exists errs originalPrompt brokenCode,
                  errors a = Some errs
                  /\ prompt a
                     = buildFixPrompt originalPrompt brokenCode errs
                         (strategy a) (attemptNumber a))
            /\ success a = false)
    (attemptHistory (engine w)).
Proof.
  induction 1 as [w H | w p c e n _ IH | w w' _ IH E].
  - rewrite H. constructor.
  - destruct (healCode_history now service p c e n w) as [E | (a & E & _)];
      rewrite E; [exact IH|].
    apply Forall_snoc; [exact IH|].
    destruct (@healCode_appended now service p c e n w a E)
      as (Hn & Ea & Es & Ep & Hr & He & Hf).
    split; [rewrite Ea; exact Hn|].
    split; [rewrite Es, Ea; reflexivity|].
    split; [exact Hr|]. split; [|exact Hf].
    exists e, p, c. split; [exact He|]. rewrite Ep, Es, Ea. reflexivity.
  - rewrite E. exact IH.
Qed.

Lemma history_well_formed_witness :
  let w :=
    snd (healCode zeroClock sampleService (lit "a clock") sampleUnfinished
           sampleDefects 2
           (snd (healCode zeroClock sampleService (lit "a clock")
                   sampleUnfinished sampleDefects 1 newWorld))) in
  afterHeals zeroClock sampleService w
  /\ List.length (attemptHistory (engine w)) = 2
  /\ Forall (fun a => (attemptNumber a <= 5)%Z /\ success a = false)
       (attemptHistory (engine w)).
Proof.
  intros w.
  assert (Hs : afterHeals zeroClock sampleService w).
  { apply afterHeals_heal, afterHeals_heal, afterHeals_start. reflexivity. }
  split; [exact Hs|]. split; [vm_compute; reflexivity|].
  eapply Forall_impl; [|exact (history_well_formed Hs)].
  intros a (Hn & _ & _ & _ & Hf). split; assumption.
Defined.

(* ================================================================== *)
(** * The response and the prompt *)
(* ================================================================== *)

Lemma startsWith_head a p c s :
  c <> a -> startsWith (a :: p) (c :: s) = false.
Proof.
  intros H. simpl. unfold char_eqb.
  destruct (N.eqb_spec a c); [congruence | reflexivity].
Qed.

Lemma fenceAt_other c s : c <> 96%N -> fenceAt (c :: s) = None.
Proof.
  intros H. unfold fenceAt.
  change (lit "```html" ++ [10%N])
    with (96%N :: 96%N :: 96%N :: lit "html" ++ [10%N]).
  rewrite startsWith_head by exact H. reflexivity.
Qed.

Lemma firstMatch_skip pre s :
  Forall (fun c => c <> 96%N) pre ->
  firstMatch fenceAt (pre ++ s) = firstMatch fenceAt s.
Proof.
  induction 1 as [|c pre Hc _ IH]; [reflexivity|].
  simpl. rewrite fenceAt_other by exact Hc. exact IH.
Qed.

Lemma find_closing inner post :
  Forall (fun c => c <> 96%N) inner ->
  find (lit "```") (inner ++ lit "```" ++ post) = Some (List.length inner).
Proof.
  induction 1 as [|c inner Hc _ IH].
  - reflexivity.
  - cbn [app find List.length].
    change (lit "```") with (96%N :: 96%N :: [96%N]) at 1.
    rewrite startsWith_head by exact Hc.
    rewrite IH. reflexivity.
Qed.

Lemma firstMatch_here (A : Type) (matchAt : jsstring -> option A) s a :
  matchAt s = Some a -> firstMatch matchAt s = Some a.
Proof. intros H. destruct s; simpl; rewrite H; reflexivity. Qed.

Lemma firstn_exact (A : Type) (l l' : list A) :
  firstn (List.length l) (l ++ l') = l.
Proof.
  induction l as [|a l IH]; simpl; [reflexivity|]. rewrite IH. reflexivity.
Qed.

Lemma fenceAt_fenced inner post :
  Forall (fun c => c <> 96%N) inner ->
  fenceAt (lit "```html" ++ nl ++ inner ++ lit "```" ++ post) = Some inner.
Proof.
  intros H. unfold fenceAt.
  replace (lit "```html" ++ nl ++ inner ++ lit "```" ++ post)
    with ((lit "```html" ++ [10%N]) ++ inner ++ lit "```" ++ post)
    by (rewrite <- app_assoc; reflexivity).
  rewrite startsWith_app.
  change (skipn 8 ((lit "```html" ++ [10%N]) ++ inner ++ lit "```" ++ post))
    with (inner ++ lit "```" ++ post).
  rewrite find_closing by exact H.
  rewrite firstn_exact. reflexivity.
Qed.

(** X14: a fenced document comes out of the response exactly.  When the
    service answers with some prose, then a fence opened by three
    backquotes and [html] and a line break, then a document, then three
    backquotes, then anything, and neither the prose nor the document
    holds a backquote, [requestFix] returns the document, without the
    fence and the prose, and [healCode] (ordinal at most 5) returns it
    and records it as the result of the attempt. *)
Theorem requestFix_fenced now service originalPrompt brokenCode errs n w
    prose document rest :
  Forall (fun c => c <> 96%N) prose ->
  Forall (fun c => c <> 96%N) document ->
  (n <= 5)%Z ->
  (forall sentBefore request,
      service sentBefore request
      = inl (prose ++ lit "```html" ++ nl ++ document ++ lit "```" ++ rest)) ->
  (forall fixPrompt,
      fst (requestFix service fixPrompt w) = Return document)
  /\ fst (healCode now service originalPrompt brokenCode errs n w)
     = Return document
  /\ exists a,
       attemptHistory
         (engine (snd (healCode now service originalPrompt brokenCode
                         errs n w)))
       = attemptHistory (engine w) ++ [a]
       /\ result a = Some document.
Proof.
  intros Hp Hd Hn Hs.
  assert (Hx : extractCode
                 (prose ++ lit "```html" ++ nl ++ document ++ lit "```" ++ rest)
               = document).
  { unfold extractCode. rewrite firstMatch_skip by exact Hp.
    assert (Hf : firstMatch fenceAt
                   (lit "```html" ++ nl ++ document ++ lit "```" ++ rest)
                 = Some document).
    { apply firstMatch_here. apply fenceAt_fenced. exact Hd. }
    rewrite Hf. reflexivity. }
  split; [|split].
  - intros fixPrompt.
    rewrite (@requestFix_resolved service fixPrompt w _ (Hs _ _)).
    cbn [fst]. rewrite Hx. reflexivity.
  - rewrite (@healCode_resolved now service originalPrompt brokenCode errs
               n w _ Hn (Hs _ _)).
    cbn [fst]. rewrite Hx. reflexivity.
  - rewrite (@healCode_resolved now service originalPrompt brokenCode errs
               n w _ Hn (Hs _ _)).
    cbn [snd engine attemptHistory]. eexists. split; [reflexivity|].
    cbn [result]. rewrite Hx. reflexivity.
Qed.

Lemma requestFix_fenced_witness :
  fst (healCode zeroClock (fun _ _ => inl sampleResponse) (lit "a clock")
         sampleUnfinished sampleDefects 1 newWorld)
  = Return (lit "<!DOCTYPE html><html><body>ok</body></html>").
Proof.
  assert (Hp : Forall (fun c => c <> 96%N) (lit "Here is the fix:" ++ nl)).
  { repeat (constructor; [discriminate|]). constructor. }
  assert (Hd : Forall (fun c => c <> 96%N)
                 (lit "<!DOCTYPE html><html><body>ok</body></html>")).
  { repeat (constructor; [discriminate|]). constructor. }
  assert (Hn : (1 <= 5)%Z) by lia.
  destruct (@requestFix_fenced zeroClock (fun _ _ => inl sampleResponse)
              (lit "a clock") sampleUnfinished sampleDefects 1 newWorld
              (lit "Here is the fix:" ++ nl)
              (lit "<!DOCTYPE html><html><body>ok</body></html>")
              (lit " Enjoy!") Hp Hd Hn)
    as (_ & H & _).
  - intros sentBefore request. unfold sampleResponse.
    rewrite <- !app_assoc. reflexivity.
  - exact H.
Defined.

Lemma startsWith_includes p : forall s,
  startsWith p s = true -> includes s p = true.
Proof.
  intros s H. destruct s; simpl; rewrite H; reflexivity.
Qed.

Lemma firstMatch_none s :
  includes s (lit "```html" ++ nl) = false -> firstMatch fenceAt s = None.
Proof.
  induction s as [|c s IH]; intros H.
  - reflexivity.
  - cbn [includes] in H. apply orb_false_iff in H. destruct H as [H1 H2].
    cbn [firstMatch]. unfold fenceAt at 1.
    change (lit "```html" ++ [10%N]) with (lit "```html" ++ nl).
    rewrite H1. apply IH. exact H2.
Qed.

(** X15: a response without a fence is used as it is.  When the answer
    of the service nowhere holds three backquotes followed by [html] and
    a line break, [requestFix] returns the whole answer unchanged, prose
    included, and so does [healCode] (ordinal at most 5). *)
Theorem requestFix_unfenced now service originalPrompt brokenCode errs n w
    response :
  includes response (lit "```html" ++ nl) = false ->
  (n <= 5)%Z ->
  (forall sentBefore request, service sentBefore request = inl response) ->
  (forall fixPrompt, fst (requestFix service fixPrompt w) = Return response)
  /\ fst (healCode now service originalPrompt brokenCode errs n w)
     = Return response.
Proof.
  intros Hi Hn Hs.
  assert (Hx : extractCode response = response).
  { unfold extractCode. rewrite firstMatch_none by exact Hi. reflexivity. }
  split.
  - intros fixPrompt.
    rewrite (@requestFix_resolved service fixPrompt w _ (Hs _ _)).
    cbn [fst]. rewrite Hx. reflexivity.
  - rewrite (@healCode_resolved now service originalPrompt brokenCode errs
               n w _ Hn (Hs _ _)).
    cbn [fst]. rewrite Hx. reflexivity.
Qed.

Lemma requestFix_unfenced_witness :
  fst (healCode zeroClock (fun _ _ => inl sampleUnfinished) (lit "a clock")
         sampleUnfinished sampleDefects 1 newWorld)
  = Return sampleUnfinished.
Proof.
  assert (Hn : (1 <= 5)%Z) by lia.
  apply (@requestFix_unfenced zeroClock (fun _ _ => inl sampleUnfinished)
           (lit "a clock") sampleUnfinished sampleDefects 1 newWorld
           sampleUnfinished eq_refl Hn (fun _ _ => eq_refl)).
Defined.

Lemma trimStart_keeps c s : isSpace c = false -> trimStart (c :: s) = c :: s.
Proof. intros H. simpl. rewrite H. reflexivity. Qed.

Lemma trim_between c0 middle last :
  isSpace c0 = false -> isSpace last = false ->
  trim (nl ++ ([c0] ++ middle ++ [last]) ++ nl) = [c0] ++ middle ++ [last].
Proof.
  intros H0 Hl. unfold trim, trimEnd.
  change (nl ++ ([c0] ++ middle ++ [last]) ++ nl)
    with (10%N :: c0 :: (middle ++ [last]) ++ nl).
  change (trimStart (10%N :: c0 :: (middle ++ [last]) ++ nl))
    with (trimStart (c0 :: (middle ++ [last]) ++ nl)).
  rewrite trimStart_keeps by exact H0.
  change (c0 :: (middle ++ [last]) ++ nl)
    with ((c0 :: middle ++ [last]) ++ [10%N]).
  rewrite rev_app_distr.
  change (rev [10%N] ++ rev (c0 :: middle ++ [last]))
    with (10%N :: rev (c0 :: middle ++ [last])).
  change (trimStart (10%N :: rev (c0 :: middle ++ [last])))
    with (trimStart (rev (c0 :: middle ++ [last]))).
  change (c0 :: middle ++ [last]) with ((c0 :: middle) ++ [last]) at 1.
  rewrite rev_app_distr.
  change (rev [last] ++ rev (c0 :: middle))
    with (last :: rev (c0 :: middle)).
  rewrite trimStart_keeps by exact Hl.
  change (last :: rev (c0 :: middle)) with ([last] ++ rev (c0 :: middle)).
  rewrite rev_app_distr, rev_involutive. reflexivity.
Qed.

(** The text of the prompt, written out. *)
Lemma buildFixPrompt_text originalPrompt brokenCode errs strategy n :
  buildFixPrompt originalPrompt brokenCode errs strategy n
  = (wrench ++ lit " CODE FIXING ATTEMPT #" ++ ofZ n) ++ nl
    ++ nl
    ++ lit "ORIGINAL REQUEST:" ++ nl
    ++ originalPrompt ++ nl
    ++ nl
    ++ lit "PREVIOUS CODE (WITH ERRORS):" ++ nl
    ++ (lit "```html" ++ nl ++ brokenCode ++ nl ++ lit "```") ++ nl
    ++ nl
    ++ lit "DETECTED ERRORS:" ++ nl
    ++ unlines
         (List.map
            (fun e => lit "- " ++ ErrorType_text (type e) ++ lit ": "
                      ++ message e) errs) ++ nl
    ++ nl
    ++ (lit "FIX STRATEGY: " ++ FixStrategy_text strategy) ++ nl
    ++ getStrategyInstructions strategy ++ nl
    ++ nl
    ++ lit "CRITICAL REQUIREMENTS:" ++ nl
    ++ lit "1. Output COMPLETE, WORKING HTML (must include <!DOCTYPE html>, <html>, <head>, <body>, closing tags)" ++ nl
    ++ lit "2. All syntax must be valid (check braces, quotes, tags)" ++ nl
    ++ lit "3. Test your code mentally before responding" ++ nl
    ++ lit "4. Make it work - no placeholders or TODOs" ++ nl
    ++ lit "5. If external resources might fail, use fallbacks or inline everything" ++ nl
    ++ nl
    ++ lit "Now provide the FIXED, COMPLETE code:".
Proof.
  unfold buildFixPrompt.
  set (summary :=
         unlines
           (List.map
              (fun e => lit "- " ++ ErrorType_text (type e) ++ lit ": "
                        ++ message e) errs)).
  set (instructions := getStrategyInstructions strategy).
  set (middle :=
         [56615%N] ++ lit " CODE FIXING ATTEMPT #" ++ ofZ n ++ nl
         ++ nl
         ++ lit "ORIGINAL REQUEST:" ++ nl
         ++ originalPrompt ++ nl
         ++ nl
         ++ lit "PREVIOUS CODE (WITH ERRORS):" ++ nl
         ++ lit "```html" ++ nl ++ brokenCode ++ nl ++ lit "```" ++ nl
         ++ nl
         ++ lit "DETECTED ERRORS:" ++ nl
         ++ summary ++ nl
         ++ nl
         ++ lit "FIX STRATEGY: " ++ FixStrategy_text strategy ++ nl
         ++ instructions ++ nl
         ++ nl
         ++ lit "CRITICAL REQUIREMENTS:" ++ nl
         ++ lit "1. Output COMPLETE, WORKING HTML (must include <!DOCTYPE html>, <html>, <head>, <body>, closing tags)" ++ nl
         ++ lit "2. All syntax must be valid (check braces, quotes, tags)" ++ nl
         ++ lit "3. Test your code mentally before responding" ++ nl
         ++ lit "4. Make it work - no placeholders or TODOs" ++ nl
         ++ lit "5. If external resources might fail, use fallbacks or inline everything" ++ nl
         ++ nl
         ++ lit "Now provide the FIXED, COMPLETE code").
  transitivity (trim (nl ++ ([55357%N] ++ middle ++ [58%N]) ++ nl)).
  - f_equal. subst middle. unfold unlines. cbn [join].
    rewrite <- !app_assoc. reflexivity.
  - rewrite trim_between by reflexivity.
    subst middle. rewrite <- !app_assoc. reflexivity.
Qed.

Lemma startsWith_app_r p : forall s t,
  startsWith p s = true -> startsWith p (s ++ t) = true.
Proof.
  induction p as [|a p IH]; intros s t H; [reflexivity|].
  destruct s as [|b s]; [discriminate H|].
  simpl in *. apply andb_prop in H. destruct H as [H1 H2].
  rewrite H1, (IH _ _ H2). reflexivity.
Qed.

Lemma includes_app_r s : forall t p,
  includes s p = true -> includes (s ++ t) p = true.
Proof.
  induction s as [|c s IH]; intros t p H.
  - simpl in H. rewrite orb_false_r in H.
    destruct p; [|discriminate H]. destruct t; reflexivity.
  - cbn [includes app] in *. apply orb_prop in H. destruct H as [H|H].
    + change (c :: s ++ t) with ((c :: s) ++ t).
      rewrite (startsWith_app_r _ _ t H). reflexivity.
    + rewrite (IH t p H). apply orb_true_r.
Qed.

Lemma endsWith_app (a b : jsstring) : exists pre, a ++ b = pre ++ b.
Proof. exists a. reflexivity. Qed.

(** Finds a part inside a text written as a chain of [++]. *)
Ltac find_part :=
  first [ apply includes_here
        | apply includes_app_l; find_part ].

Ltac find_inner_part :=
  first [ apply includes_app_r; apply includes_app_l; apply includes_here
        | apply includes_app_l; find_inner_part ].

(** X16: the prompt carries its inputs verbatim.  It starts with the
    wrench sign and "CODE FIXING ATTEMPT #" followed by the ordinal, it
    contains the original request, the broken code inside a fence, one
    line "- kind: message" for every defect, the name of the strategy
    and its instructions, and it ends with
    "Now provide the FIXED, COMPLETE code:" with no white space after
    it. *)
Theorem buildFixPrompt_contents originalPrompt brokenCode errs strategy n :
  let fixPrompt :=
    buildFixPrompt originalPrompt brokenCode errs strategy n in
  startsWith (wrench ++ lit " CODE FIXING ATTEMPT #" ++ ofZ n) fixPrompt
  = true
  /\ includes fixPrompt originalPrompt = true
  /\ includes fixPrompt (lit "```html" ++ nl ++ brokenCode ++ nl ++ lit "```")
     = true
  /\ (forall e, In e errs ->
        includes fixPrompt
          (lit "- " ++ ErrorType_text (type e) ++ lit ": " ++ message e)
        = true)
  /\ includes fixPrompt (lit "FIX STRATEGY: " ++ FixStrategy_text strategy)
     = true
  /\ includes fixPrompt (getStrategyInstructions strategy) = true
  /\ exists before,
       fixPrompt = before ++ lit "Now provide the FIXED, COMPLETE code:".
Proof.
  intros fixPrompt. subst fixPrompt. rewrite buildFixPrompt_text.
  split; [apply startsWith_app|].
  split; [find_part|].
  split; [find_part|].
  split.
  { intros e Hin.
    destruct (join_In nl
                (List.map
                   (fun e => lit "- " ++ ErrorType_text (type e)
                             ++ lit ": " ++ message e) errs)
                (lit "- " ++ ErrorType_text (type e) ++ lit ": " ++ message e))
      as (a & b & E).
    { apply in_map_iff. exists e. split; [reflexivity | exact Hin]. }
    unfold unlines at 1. rewrite E. find_inner_part. }
  split; [find_part|].
  split; [find_part|].
  eexists. rewrite !app_assoc. reflexivity.
Qed.

(* ================================================================== *)
(** * The validate-and-heal loop *)
(* ================================================================== *)

Section PreviewRun.

Variable now : nat -> Z.
Variable service : list InvokeArgs -> InvokeArgs -> jsstring + jsstring.
Variable originalPrompt : jsstring.

(** The three ways a call of [attemptFix] can go. *)
Lemma attemptFix_cases brokenCode detectedErrors p w :
  let count := (attemptCount p + 1)%Z in
  let fixPrompt :=
    buildFixPrompt originalPrompt brokenCode detectedErrors
      (selectStrategy detectedErrors count) count in
  let st' := attemptFix now service originalPrompt brokenCode detectedErrors
               (p, w) in
  attemptCount (fst st') = count
  /\ fixAttempts (fst st') = engineHistory
  /\ shownErrors (fst st') = shownErrors p
  /\ (((5 < count)%Z
       /\ snd st' = w
       /\ currentCode (fst st') = currentCode p
       /\ isHealing (fst st') = false)
      \/ ((count <= 5)%Z
          /\ (exists text,
                service (sent w) (fixRequest fixPrompt w) = inr text)
          /\ snd st' = set_sent (sent w ++ [fixRequest fixPrompt w]) w
          /\ currentCode (fst st') = currentCode p
          /\ isHealing (fst st') = false)
      \/ ((count <= 5)%Z
          /\ (exists response,
                service (sent w) (fixRequest fixPrompt w) = inl response
                /\ currentCode (fst st') = extractCode response
                /\ attemptHistory (engine (snd st'))
                   = attemptHistory (engine w)
                     ++ [mkFixAttempt count
                           (selectStrategy detectedErrors count) fixPrompt
                           (Some (extractCode response)) false
                           (Some detectedErrors) (now (clock w))])
          /\ sent (snd st') = sent w ++ [fixRequest fixPrompt w]
          /\ detector (snd st') = mkErrorDetector [] (iframe (detector w))
          /\ clock (snd st') = S (clock w)
          /\ isHealing (fst st') = true)).
Proof.
  intros count fixPrompt st'. subst st'. unfold attemptFix. fold count.
  destruct (Z.ltb_spec maxAttempts count) as [Hn|Hn].
  - rewrite healCode_refused by exact Hn. simpl.
    repeat split. left. repeat split. exact Hn.
  - destruct (service (sent w) (fixRequest fixPrompt w))
      as [response|text] eqn:E.
    + rewrite (@healCode_resolved now service originalPrompt brokenCode
                 detectedErrors count w response Hn E).
      simpl. repeat split. right. right.
      split; [exact Hn|]. split; [|repeat split].
      exists response. repeat split.
    + rewrite (@healCode_rejected now service originalPrompt brokenCode
                 detectedErrors count w text Hn E).
      simpl. repeat split. right. left.
      split; [exact Hn|]. split; [exists text; reflexivity|]. repeat split.
Qed.

End PreviewRun.

Lemma ascending_snoc l x :
  ascending l -> Forall (fun y => (y < x)%Z) l -> ascending (l ++ [x]).
Proof.
  induction l as [|y l IH]; intros Ha Hl; simpl.
  - split; constructor.
  - destruct Ha as [Hy Ha]. inversion Hl; subst. split.
    + apply Forall_app. split; [exact Hy|]. constructor; [assumption|constructor].
    + apply IH; assumption.
Qed.

Lemma updateAt_numbers i : forall l,
  List.map attemptNumber (updateAt i setSuccess l) = List.map attemptNumber l.
Proof.
  induction i as [|i IH]; intros [|a l]; simpl; try reflexivity.
  rewrite IH. reflexivity.
Qed.

Lemma markLastAttemptSuccess_numbers w :
  let w' := snd (markLastAttemptSuccess w) in
  List.map attemptNumber (attemptHistory (engine w'))
  = List.map attemptNumber (attemptHistory (engine w))
  /\ sent w' = sent w /\ detector w' = detector w /\ clock w' = clock w.
Proof.
  unfold markLastAttemptSuccess, bind, getEngine, putEngine. simpl.
  destruct (Nat.ltb 0 (List.length (attemptHistory (engine w)))); simpl.
  - rewrite updateAt_numbers. repeat split.
  - repeat split.
Qed.

Section PreviewInvariant.

Variable now : nat -> Z.
Variable service : list InvokeArgs -> InvokeArgs -> jsstring + jsstring.
Variable originalPrompt : jsstring.

Lemma invariant_frame p w p' w' :
  previewInvariant (p, w) ->
  attemptCount p' = attemptCount p ->
  sent w' = sent w ->
  List.map attemptNumber (attemptHistory (engine w'))
  = List.map attemptNumber (attemptHistory (engine w)) ->
  previewInvariant (p', w').
Proof.
  unfold previewInvariant. simpl. intros H Hc Hs Hn.
  rewrite Hc, Hs, Hn. exact H.
Qed.

Lemma invariant_attemptFix brokenCode detectedErrors p w :
  previewInvariant (p, w) ->
  previewInvariant
    (attemptFix now service originalPrompt brokenCode detectedErrors (p, w)).
Proof.
  intros (H0 & Hs & Hl & Ha & Hf). simpl in *.
  pose proof (attemptFix_cases now service originalPrompt brokenCode
                detectedErrors p w) as C.
  simpl in C.
  destruct (attemptFix now service originalPrompt brokenCode detectedErrors
              (p, w)) as [p' w'].
  simpl in C. destruct C as (Hc & _ & _ & C).
  unfold previewInvariant. simpl. rewrite Hc.
  destruct C as [(Hn & -> & _) | [(Hn & _ & -> & _)
                                  | (Hn & (resp & _ & _ & Eh) & Es & _)]].
  - split; [lia|]. split; [lia|]. split; [exact Hl|]. split; [exact Ha|].
    eapply Forall_impl; [|exact Hf]. intros n Hx. simpl in Hx. lia.
  - simpl. rewrite length_app. simpl.
    split; [lia|]. split; [lia|]. split; [lia|]. split; [exact Ha|].
    eapply Forall_impl; [|exact Hf]. intros n Hx. simpl in Hx. lia.
  - rewrite Eh, Es, map_app, !length_app. simpl.
    split; [lia|]. split; [lia|]. split; [rewrite length_map in *; lia|].
    split.
    + apply ascending_snoc; [exact Ha|].
      eapply Forall_impl; [|exact Hf]. intros n Hx. simpl in Hx. lia.
    + apply Forall_app. split.
      * eapply Forall_impl; [|exact Hf]. intros n Hx. simpl in Hx. lia.
      * constructor; [lia|constructor].
Qed.

Lemma previewRuns_invariant st :
  previewRuns now service originalPrompt st -> previewInvariant st.
Proof.
  induction 1 as [c w Hh Hs | [p w] b e _ IH | [p w] code _ IH
                  | [p w] m code _ IH | p w w' _ IH He Hs].
  - unfold previewInvariant. simpl. rewrite Hh, Hs. simpl.
    repeat split; try lia; constructor.
  - apply invariant_attemptFix. exact IH.
  - unfold validateAndHeal.
    destruct (Nat.ltb (List.length code) 50).
    + cbn [snd]. apply invariant_attemptFix.
      eapply invariant_frame; [exact IH | | |]; reflexivity.
    + rewrite detectSyntaxErrors_run.
      destruct (Nat.ltb 0 (List.length (stamp now (clock w) (report code)))).
      * cbn [snd]. apply invariant_attemptFix.
        eapply invariant_frame; [exact IH | | |]; reflexivity.
      * cbn [snd]. eapply invariant_frame; [exact IH | | |]; reflexivity.
  - unfold renderCheck. destruct m; cbn [negb]; [|exact IH].
    pose proof (stage3_frame_detector now w) as F.
    destruct (analyzeRenderedOutput now w) as [[renderErrors|e] w1].
    + cbn [snd] in F. destruct F as (_ & _ & Fe & Fs).
      destruct (Nat.ltb 0 (List.length (errorLog (detector w) ++ renderErrors))).
      * cbn [snd]. apply invariant_attemptFix.
        eapply invariant_frame; [exact IH | | |];
          [reflexivity | exact Fs | rewrite Fe; reflexivity].
      * cbn [snd].
        destruct (markLastAttemptSuccess_numbers w1) as (Mn & Ms & _).
        eapply invariant_frame; [exact IH | | |];
          [reflexivity | rewrite Ms; exact Fs | rewrite Mn, Fe; reflexivity].
    + cbn [snd] in *. destruct F as (_ & _ & Fe & Fs).
      eapply invariant_frame; [exact IH | | |];
        [reflexivity | exact Fs | rewrite Fe; reflexivity].
  - eapply invariant_frame; [exact IH | | |];
      [reflexivity | exact Hs | rewrite He; reflexivity].
Qed.

End PreviewInvariant.

(** X17: the loop is bounded.  However often and with whatever arguments
    the functions of the component run after it has mounted, at most 5
    requests are ever sent to the generative service and at most that
    many attempts are recorded; the ordinals of the recorded attempts
    rise strictly and lie between 1 and 5, none above the attempt
    counter. *)
Theorem preview_bounded now service originalPrompt p w :
  previewRuns now service originalPrompt (p, w) ->
  List.length (sent w) <= 5
  /\ List.length (attemptHistory (engine w)) <= List.length (sent w)
  /\ ascending (List.map attemptNumber (attemptHistory (engine w)))
  /\ Forall (fun a => (1 <= attemptNumber a <= 5)%Z
                      /\ (attemptNumber a <= attemptCount p)%Z)
       (attemptHistory (engine w)).
Proof.
  intros H. apply previewRuns_invariant in H.
  destruct H as (H0 & Hs & Hl & Ha & Hf). simpl in *.
  split; [lia|]. split; [rewrite length_map in Hl; exact Hl|].
  split; [exact Ha|].
  apply Forall_forall. intros a Hin.
  rewrite Forall_forall in Hf.
  specialize (Hf (attemptNumber a) (in_map attemptNumber _ _ Hin)).
  simpl in Hf. lia.
Qed.

Lemma preview_bounded_witness :
  previewRuns zeroClock sampleService (lit "a clock") sevenAttempts
  /\ attemptCount (fst sevenAttempts) = 7%Z
  /\ List.length (sent (snd sevenAttempts)) = 5
  /\ List.length (sent (snd sevenAttempts)) <= 5
  /\ ascending
       (List.map attemptNumber (attemptHistory (engine (snd sevenAttempts)))).
Proof.
  assert (H : previewRuns zeroClock sampleService (lit "a clock")
                sevenAttempts).
  { unfold sevenAttempts. do 7 apply preview_attemptFix.
    apply preview_mounts; reflexivity. }
  split; [exact H|]. split; [vm_compute; reflexivity|].
  split; [vm_compute; reflexivity|].
  destruct sevenAttempts as [p w] eqn:E.
  destruct (preview_bounded H) as (Hs & _ & Ha & _).
  split; [exact Hs | exact Ha].
Defined.

Section PreviewSteps.

Variable now : nat -> Z.
Variable service : list InvokeArgs -> InvokeArgs -> jsstring + jsstring.
Variable originalPrompt : jsstring.

Lemma attemptFix_count brokenCode detectedErrors p w :
  attemptCount
    (fst (attemptFix now service originalPrompt brokenCode detectedErrors
            (p, w)))
  = (attemptCount p + 1)%Z
  /\ shownErrors
       (fst (attemptFix now service originalPrompt brokenCode detectedErrors
               (p, w)))
     = shownErrors p.
Proof.
  destruct (attemptFix_cases now service originalPrompt brokenCode
              detectedErrors p w) as (Hc & _ & Hs & _).
  split; assumption.
Qed.

Lemma attemptFix_sent brokenCode detectedErrors p w :
  (attemptCount p + 1 <= 5)%Z ->
  exists r,
    sent (snd (attemptFix now service originalPrompt brokenCode
                 detectedErrors (p, w)))
    = sent w ++ [r]
    /\ arg_prompt r
       = buildFixPrompt originalPrompt brokenCode detectedErrors
           (selectStrategy detectedErrors (attemptCount p + 1))
           (attemptCount p + 1).
Proof.
  intros Hn.
  destruct (attemptFix_cases now service originalPrompt brokenCode
              detectedErrors p w) as (_ & _ & _ & C).
  cbn zeta in C.
  destruct C as [(Hx & _) | [(_ & _ & E & _) | (_ & _ & E & _)]].
  - lia.
  - eexists. rewrite E. split; reflexivity.
  - eexists. rewrite E. split; reflexivity.
Qed.

End PreviewSteps.

(** X18: once the attempt counter has reached 5, [attemptFix] gives up
    without asking the service: nothing is sent, the world is left
    exactly as it was, the code on display is kept, healing is switched
    off and the status reads "Could not fix after n attempts" with the
    new value of the counter. *)
Theorem attemptFix_exhausted now service originalPrompt brokenCode
    detectedErrors p w :
  (5 <= attemptCount p)%Z ->
  attemptFix now service originalPrompt brokenCode detectedErrors (p, w)
  = (mkPreview (currentCode p) false
       (crossMark ++ lit " Could not fix after "
        ++ ofZ (attemptCount p + 1) ++ lit " attempts")
       (shownErrors p) engineHistory (attemptCount p + 1),
     w).
Proof.
  intros H. unfold attemptFix.
  rewrite healCode_refused by (unfold maxAttempts; lia). reflexivity.
Qed.

Lemma attemptFix_exhausted_witness :
  (5 <= attemptCount exhaustedPreview)%Z /\
  snd (attemptFix zeroClock sampleService (lit "a clock") sampleUnfinished
         sampleDefects (exhaustedPreview, newWorld))
  = newWorld.
Proof.
  assert (H : (5 <= attemptCount exhaustedPreview)%Z) by (simpl; lia).
  split; [exact H|].
  rewrite (attemptFix_exhausted zeroClock sampleService (lit "a clock")
             sampleUnfinished sampleDefects exhaustedPreview newWorld H).
  reflexivity.
Defined.

(** X19: what a repair attempt does to the runtime buffer.  While the
    counter allows a request (counter below 5): when the service answers,
    the code on display becomes the code taken from the answer and the
    buffer is emptied, so the defects collected for the old code are
    gone, while the frame stays attached; when the request fails, the
    code on display and the whole detector, buffer included, stay as they
    were and healing is switched off. *)
Theorem attemptFix_buffer now service originalPrompt brokenCode
    detectedErrors p w :
  (attemptCount p < 5)%Z ->
  let st' := attemptFix now service originalPrompt brokenCode detectedErrors
               (p, w) in
  match service (sent w)
          (fixRequest
             (buildFixPrompt originalPrompt brokenCode detectedErrors
                (selectStrategy detectedErrors (attemptCount p + 1))
                (attemptCount p + 1)) w) with
  | inl response =>
      currentCode (fst st') = extractCode response
      /\ isHealing (fst st') = true
      /\ errorLog (detector (snd st')) = []
      /\ iframe (detector (snd st')) = iframe (detector w)
      /\ fst (getErrors (snd st')) = Return []
  | inr _ =>
      currentCode (fst st') = currentCode p
      /\ isHealing (fst st') = false
      /\ detector (snd st') = detector w
  end.
Proof.
  intros Hn st'. subst st'.
  destruct (attemptFix_cases now service originalPrompt brokenCode
              detectedErrors p w) as (_ & _ & _ & C).
  cbn zeta in C.
  destruct C as [(Hx & _)
                | [(_ & (text & E) & Ew & Hc & Hh)
                  | (_ & (response & E & Hc & _) & _ & Hd & _ & Hh)]].
  - lia.
  - rewrite E. rewrite Ew. repeat split; assumption.
  - rewrite E. split; [exact Hc|]. split; [exact Hh|].
    split; [rewrite Hd; reflexivity|]. split; [rewrite Hd; reflexivity|].
    unfold getErrors, bind, getDetector, ret. cbn [fst].
    rewrite Hd. reflexivity.
Qed.

Lemma attemptFix_buffer_witness :
  (attemptCount (newPreview sampleUnbalanced) < 5)%Z /\
  errorLog (detector sampleLoggedWorld) <> [] /\
  errorLog
    (detector
       (snd (attemptFix zeroClock sampleService (lit "a clock")
               sampleUnbalanced sampleDefects
               (newPreview sampleUnbalanced, sampleLoggedWorld))))
  = [].
Proof.
  assert (H : (attemptCount (newPreview sampleUnbalanced) < 5)%Z)
    by (simpl; lia).
  split; [exact H|]. split; [discriminate|].
  pose proof (attemptFix_buffer zeroClock sampleService (lit "a clock")
                sampleUnbalanced sampleDefects
                (newPreview sampleUnbalanced) sampleLoggedWorld H) as B.
  cbn zeta in B. unfold sampleService at 1 in B.
  destruct B as (_ & _ & B & _). exact B.
Defined.

(** X20: an artifact that fails the static checks is never rendered.
    [validateAndHeal] arms the render timer exactly when the text has at
    least 50 code units and Stage 1 returns no defect; in that case it
    sends nothing, reads no clock and leaves detector, engine and attempt
    counter alone.  In every other case it calls [attemptFix] once: for a
    text shorter than 50 code units with the single defect
    "Code appears to be incomplete or malformed" of kind
    [incomplete_code], whatever Stage 1 would say about the text;
    otherwise with exactly the defects Stage 1 returned, which are also
    put on display.  While the counter is below
    5 the request sent carries the prompt built from that text and those
    defects. *)
Theorem validateAndHeal_static now service originalPrompt code p w :
  let run := validateAndHeal now service originalPrompt code (p, w) in
  let p' := fst (snd run) in
  let w' := snd (snd run) in
  let count := (attemptCount p + 1)%Z in
  (fst run = renderScheduled <->
   50 <= List.length code
   /\ fst (detectSyntaxErrors now code w) = Return [])
  /\ (fst run = renderScheduled ->
      w' = w /\ attemptCount p' = attemptCount p
      /\ shownErrors p' = shownErrors p)
  /\ (fst run <> renderScheduled ->
      fst run = fixAttempted /\ attemptCount p' = count)
  /\ (List.length code < 50 ->
      shownErrors p'
      = [mkDetectedError incomplete_code incompleteMessage None None None
           (now (clock w))]
      /\ ((count <= 5)%Z ->
          exists r,
            sent w' = sent w ++ [r]
            /\ arg_prompt r
               = buildFixPrompt originalPrompt code
                   [mkDetectedError incomplete_code incompleteMessage
                      None None None (now (S (clock w)))]
                   (selectStrategy [] count) count))
  /\ (50 <= List.length code ->
      forall errs,
        fst (detectSyntaxErrors now code w) = Return errs -> errs <> [] ->
        shownErrors p' = errs
        /\ ((count <= 5)%Z ->
            exists r,
              sent w' = sent w ++ [r]
              /\ arg_prompt r
                 = buildFixPrompt originalPrompt code errs
                     (selectStrategy [] count) count)).
Proof.
  intros run p' w' count. subst run p' w'.
  unfold validateAndHeal.
  destruct (Nat.ltb_spec (List.length code) 50) as [Hlen|Hlen].
  - cbn [fst snd].
    set (p1 := mkPreview _ _ _ [_] _ _).
    set (w1 := set_clock _ w).
    set (passed := mkDetectedError _ _ _ _ _ (now (S (clock w)))).
    destruct (attemptFix_count now service originalPrompt code [passed] p1 w1)
      as (Hc & Hs).
    split; [split; [discriminate | intros [H _]; lia]|].
    split; [discriminate|].
    split; [intros _; split; [reflexivity | exact Hc]|].
    split; [|intros H; lia].
    intros _. split; [exact Hs|]. intros Hn.
    destruct (@attemptFix_sent now service originalPrompt code [passed] p1 w1
                Hn) as (r & Er & Ep).
    exists r. split; [exact Er | exact Ep].
  - rewrite detectSyntaxErrors_run. cbn [fst].
    destruct (stamp now (clock w) (report code)) as [|e errs] eqn:Es.
    + cbn [List.length Nat.ltb Nat.leb fst snd].
      split; [split; [intros _; split; [exact Hlen|reflexivity]
                     | reflexivity]|].
      split.
      { intros _. apply stamp_nil in Es. rewrite Es. simpl.
        rewrite Nat.add_0_r, set_clock_same. repeat split. }
      split; [intros H; exfalso; apply H; reflexivity|].
      split; [intros H; lia|].
      intros _ errs H Hne. inversion H; subst. exfalso. apply Hne. reflexivity.
    + cbn [List.length Nat.ltb Nat.leb fst snd].
      set (p1 := mkPreview _ _ _ (e :: errs) _ _).
      set (w1 := set_clock _ w).
      destruct (attemptFix_count now service originalPrompt code (e :: errs)
                  p1 w1) as (Hc & Hs).
      split; [split; [discriminate | intros [_ H]; discriminate H]|].
      split; [discriminate|].
      split; [intros _; split; [reflexivity | exact Hc]|].
      split; [intros H; lia|].
      intros _ errs' H Hne. inversion H; subst errs'.
      split; [exact Hs|]. intros Hn.
      destruct (@attemptFix_sent now service originalPrompt code (e :: errs)
                  p1 w1 Hn) as (r & Er & Ep).
      exists r. split; [exact Er | exact Ep].
Qed.

Lemma validateAndHeal_static_witness :
  List.length sampleShort < 50 /\
  50 <= List.length sampleClean /\
  fst (validateAndHeal zeroClock sampleService (lit "a clock") sampleShort
         (newPreview sampleShort, newWorld))
  = fixAttempted /\
  fst (validateAndHeal zeroClock sampleService (lit "a clock") sampleClean
         (newPreview sampleClean, newWorld))
  = renderScheduled.
Proof.
  assert (Hs : List.length sampleShort < 50) by (vm_compute; lia).
  assert (Hc : 50 <= List.length sampleClean) by (vm_compute; lia).
  split; [exact Hs|]. split; [exact Hc|].
  destruct (validateAndHeal_static zeroClock sampleService (lit "a clock")
              sampleShort (newPreview sampleShort) newWorld)
    as ((Hiff & _) & _ & Hfix & _).
  destruct (validateAndHeal_static zeroClock sampleService (lit "a clock")
              sampleClean (newPreview sampleClean) newWorld)
    as ((_ & Hiff') & _).
  split.
  - apply Hfix. intros E. apply Hiff in E. lia.
  - apply Hiff'. split; [exact Hc|]. vm_compute. reflexivity.
Defined.




(* ================================================================== *)
(** * The chat store *)
(* ================================================================== *)

Lemma find_fits p : forall s m,
  find p s = Some m -> m + List.length p <= List.length s.
Proof.
  induction s as [|c s IH]; intros m H.
  - simpl in H. destruct p; [|discriminate H].
    inversion H; subst. simpl. lia.
  - cbn [find] in H. destruct (startsWith p (c :: s)) eqn:E.
    + inversion H; subst. clear H IH. revert E.
      generalize (c :: s). induction p as [|a p IHp]; intros l E; simpl; [lia|].
      destruct l as [|b l]; [discriminate E|]. simpl in E.
      apply andb_prop in E. destruct E as [_ E]. specialize (IHp l E).
      simpl in *. lia.
    + destruct (find p s) as [n|] eqn:En; [|discriminate H].
      inversion H; subst. specialize (IH n eq_refl). simpl. lia.
Qed.

Lemma startsWith_false_app p : forall s t,
  startsWith p s = false -> List.length p <= List.length s ->
  startsWith p (s ++ t) = false.
Proof.
  induction p as [|a p IH]; intros s t H Hl; [discriminate H|].
  destruct s as [|b s]; [simpl in Hl; lia|].
  simpl in *. destruct (char_eqb a b); [|reflexivity]. simpl in *.
  apply IH; [exact H | lia].
Qed.

Lemma find_app p : forall s t m,
  find p s = Some m -> find p (s ++ t) = Some m.
Proof.
  induction s as [|c s IH]; intros t m H.
  - simpl in H. destruct p; [|discriminate H]. destruct t; exact H.
  - cbn [find app] in *. destruct (startsWith p (c :: s)) eqn:E.
    + change (c :: s ++ t) with ((c :: s) ++ t).
      rewrite (startsWith_app_r _ _ t E). exact H.
    + destruct (find p s) as [n|] eqn:En; [|discriminate H].
      pose proof (find_fits _ _ En) as Hf.
      change (c :: s ++ t) with ((c :: s) ++ t).
      rewrite startsWith_false_app by (simpl; (exact E || lia)).
      rewrite (IH t n eq_refl). exact H.
Qed.

Lemma find_includes p : forall s,
  includes s p = true -> exists m, find p s = Some m.
Proof.
  induction s as [|c s IH]; intros H; cbn [includes find] in *.
  - rewrite orb_false_r in H. rewrite H. eexists; reflexivity.
  - destruct (startsWith p (c :: s)); [eexists; reflexivity|].
    simpl in H. destruct (IH H) as (m & ->). eexists; reflexivity.
Qed.

Lemma includes_find p : forall s m,
  find p s = Some m -> includes s p = true.
Proof.
  induction s as [|c s IH]; intros m H; cbn [includes find] in *.
  - destruct (startsWith p []); [reflexivity | discriminate H].
  - destruct (startsWith p (c :: s)); [reflexivity|]. simpl.
    destruct (find p s) as [n|] eqn:En; [|discriminate H].
    apply (IH n eq_refl).
Qed.

Lemma includes_tail c s p : includes s p = true -> includes (c :: s) p = true.
Proof. intros H. cbn [includes]. rewrite H. apply orb_true_r. Qed.

Lemma includes_skipn k : forall s p,
  includes (skipn (S k) s) p = true -> includes (skipn k s) p = true.
Proof.
  induction k as [|k IH]; intros s p H.
  - destruct s as [|c s]; [exact H|]. simpl in *. apply includes_tail, H.
  - destruct s as [|c s]; [exact H|]. simpl skipn in *. apply IH. exact H.
Qed.

Lemma fenceAt_closing s inner :
  fenceAt s = Some inner -> includes (skipn 8 s) (lit "```") = true.
Proof.
  unfold fenceAt. destruct (startsWith _ s); [|discriminate].
  destruct (find (lit "```") (skipn 8 s)) as [m|] eqn:E; [|discriminate].
  intros _. apply (includes_find _ _ E).
Qed.

Lemma firstMatch_closing s : forall inner,
  firstMatch fenceAt s = Some inner ->
  includes (skipn 8 s) (lit "```") = true.
Proof.
  induction s as [|c s IH]; intros inner H; cbn [firstMatch] in H.
  - destruct (fenceAt []) eqn:E; [|discriminate H].
    apply (fenceAt_closing _ E).
  - destruct (fenceAt (c :: s)) eqn:E.
    + apply (fenceAt_closing _ E).
    + change (skipn 8 (c :: s)) with (skipn 7 s).
      apply includes_skipn. apply (IH inner H).
Qed.

Lemma includes_nonempty s p :
  includes s p = true -> p <> [] -> s <> [].
Proof. intros H Hp ->. simpl in H. destruct p; [contradiction|discriminate]. Qed.

Lemma skipn_length_lt (A : Type) k : forall l : list A,
  skipn k l <> [] -> k < List.length l.
Proof.
  induction k as [|k IH]; intros [|a l] H; simpl in *;
    try contradiction; try lia.
  specialize (IH l H). lia.
Qed.

Lemma fenceAt_app s t inner :
  fenceAt s = Some inner -> fenceAt (s ++ t) = Some inner.
Proof.
  unfold fenceAt. destruct (startsWith _ s) eqn:E; [|discriminate].
  rewrite (startsWith_app_r _ _ t E).
  destruct (find (lit "```") (skipn 8 s)) as [m|] eqn:Ef; [|discriminate].
  intros H. injection H as <-.
  pose proof (find_fits _ _ Ef) as Hfit.
  assert (Hlen : 8 <= List.length s).
  { destruct (Nat.le_gt_cases 8 (List.length s)) as [Hl|Hl]; [exact Hl|].
    rewrite skipn_all2 in Hfit by lia. simpl in Hfit. lia. }
  rewrite skipn_app.
  replace (8 - List.length s) with 0 by lia.
  change (skipn 0 t) with t.
  rewrite (find_app _ _ t Ef).
  rewrite firstn_app.
  replace (m - List.length (skipn 8 s)) with 0 by lia.
  cbn [firstn]. rewrite app_nil_r. reflexivity.
Qed.

Lemma firstMatch_app s : forall t inner,
  firstMatch fenceAt s = Some inner ->
  firstMatch fenceAt (s ++ t) = Some inner.
Proof.
  induction s as [|c s IH]; intros t inner H.
  - cbn [firstMatch] in H. destruct (fenceAt []) eqn:E; discriminate.
  - cbn [firstMatch] in H. destruct (fenceAt (c :: s)) as [x|] eqn:E.
    + inversion H; subst. apply firstMatch_here. apply fenceAt_app. exact E.
    + pose proof (firstMatch_closing _ H) as Hc.
      assert (Hlen : 8 < List.length s).
      { apply skipn_length_lt.
        eapply includes_nonempty; [exact Hc | discriminate]. }
      assert (En : fenceAt ((c :: s) ++ t) = None).
      { unfold fenceAt in *.
        destruct (startsWith (lit "```html" ++ [10%N]) (c :: s)) eqn:Es.
        - destruct (find (lit "```") (skipn 8 (c :: s))) eqn:Ef;
            [discriminate E|].
          change (skipn 8 (c :: s)) with (skipn 7 s) in Ef.
          apply includes_skipn in Hc.
          destruct (find_includes _ _ Hc) as (m & Em). congruence.
        - rewrite startsWith_false_app; [reflexivity | exact Es |].
          simpl. lia. }
      change ((c :: s) ++ t) with (c :: s ++ t) in *.
      cbn [firstMatch]. rewrite En. apply IH. exact H.
Qed.

Lemma validCode_app text chunk inner :
  firstMatch fenceAt text = Some inner ->
  Chat.validCode (text ++ chunk) = Chat.validCode text.
Proof.
  intros H. unfold Chat.validCode.
  rewrite (firstMatch_app _ chunk H), H. reflexivity.
Qed.

Lemma validCode_Some_app text chunk c :
  Chat.validCode text = Some c -> Chat.validCode (text ++ chunk) = Some c.
Proof.
  intros H. destruct (firstMatch fenceAt text) as [inner|] eqn:E.
  - rewrite (validCode_app _ chunk E). exact H.
  - unfold Chat.validCode in H. rewrite E in H. discriminate H.
Qed.

Lemma validCode_stuck text chunk inner :
  firstMatch fenceAt text = Some inner -> Chat.validCode text = None ->
  Chat.validCode (text ++ chunk) = None.
Proof. intros E H. rewrite (validCode_app _ chunk E). exact H. Qed.

Lemma appendToMessage_twice a b m :
  Chat.appendToMessage b (fst (Chat.appendToMessage a m))
  = (fst (Chat.appendToMessage (a ++ b) m),
     match snd (Chat.appendToMessage (a ++ b) m),
           snd (Chat.appendToMessage a m) with
     | Some c, Some _ => Some c
     | Some c, None => Some c
     | None, _ => None
     end)
  /\ (forall c, snd (Chat.appendToMessage a m) = Some c ->
        snd (Chat.appendToMessage (a ++ b) m) = Some c).
Proof.
  unfold Chat.appendToMessage. destruct m as [i r c k t]. simpl.
  destruct r; [split; [reflexivity | discriminate]|].
  rewrite app_assoc.
  destruct (Chat.validCode (c ++ a)) as [c1|] eqn:E1; simpl.
  - rewrite (validCode_Some_app _ b E1). split; [reflexivity|].
    intros c0 H. exact H.
  - split; [|discriminate].
    destruct (Chat.validCode ((c ++ a) ++ b)); reflexivity.
Qed.

(** X22: streaming in pieces is streaming at once.  Calling
    [updateLastMessage] with one chunk and then with another leaves the
    store exactly as one call with the two chunks joined: the same
    messages, the same code on the last message, the same [currentCode].
    So after any non-empty series of tokens the store is what a single
    update with their concatenation gives. *)
Theorem updateLastMessage_chunks a b state :
  Chat.updateLastMessage b (Chat.updateLastMessage a state)
  = Chat.updateLastMessage (a ++ b) state
  /\ forall tokens,
       fold_left (fun s token => Chat.updateLastMessage token s) tokens
         (Chat.updateLastMessage a state)
       = Chat.updateLastMessage (a ++ List.concat tokens) state.
Proof.
  assert (Two : forall a b state,
             Chat.updateLastMessage b (Chat.updateLastMessage a state)
             = Chat.updateLastMessage (a ++ b) state).
  { clear. intros a b state. unfold Chat.updateLastMessage at 2 3.
    destruct (rev (Chat.messages state)) as [|m earlier] eqn:Er.
    - unfold Chat.updateLastMessage. rewrite Er. reflexivity.
    - destruct (appendToMessage_twice a b m) as (T & K).
      destruct (Chat.appendToMessage a m) as [m1 k1] eqn:E1.
      destruct (Chat.appendToMessage (a ++ b) m) as [m2 k2] eqn:E2.
      simpl in T, K.
      unfold Chat.updateLastMessage. cbn [Chat.messages].
      rewrite rev_app_distr, rev_involutive. cbn [rev app].
      rewrite T. cbn [Chat.isLoading Chat.viewMode Chat.currentCode
                      Chat.isModelInitialized].
      destruct k1 as [c1|].
      + rewrite (K c1 eq_refl). reflexivity.
      + destruct k2; reflexivity. }
  split; [apply Two|].
  intros tokens. revert a. induction tokens as [|t ts IH]; intros a; simpl.
  - rewrite app_nil_r. reflexivity.
  - rewrite Two, IH, app_assoc. reflexivity.
Qed.

Lemma rev_cons_inv (A : Type) (l : list A) m earlier :
  rev l = m :: earlier -> l = rev earlier ++ [m].
Proof.
  intros H. apply (f_equal (@rev A)) in H.
  rewrite rev_involutive in H. exact H.
Qed.

(** X23: what [updateLastMessage] may touch.  It never adds or removes a
    message and leaves every message but the last as it was; of the last
    message it keeps identifier, role and timestamp.  When the last
    message belongs to the assistant its content grows by exactly the
    chunk; when it belongs to the user, or when there is no message, the
    messages and [currentCode] are unchanged.  The loading flag, the view
    mode and the initialisation flag are never touched. *)
Theorem updateLastMessage_frame chunk state :
  let state' := Chat.updateLastMessage chunk state in
  List.length (Chat.messages state') = List.length (Chat.messages state)
  /\ Chat.isLoading state' = Chat.isLoading state
  /\ Chat.viewMode state' = Chat.viewMode state
  /\ Chat.isModelInitialized state' = Chat.isModelInitialized state
  /\ (Chat.messages state = [] -> state' = state)
  /\ (forall earlier m,
        Chat.messages state = earlier ++ [m] ->
        exists m',
          Chat.messages state' = earlier ++ [m']
          /\ Chat.id m' = Chat.id m
          /\ Chat.role m' = Chat.role m
          /\ Chat.timestamp m' = Chat.timestamp m
          /\ (Chat.role m = Chat.assistant ->
              Chat.content m' = Chat.content m ++ chunk)
          /\ (Chat.role m = Chat.user ->
              m' = m /\ Chat.currentCode state' = Chat.currentCode state)).
Proof.
  intros state'. subst state'. unfold Chat.updateLastMessage.
  destruct (rev (Chat.messages state)) as [|m earlier] eqn:Er.
  - repeat split.
    intros earlier m E. rewrite E, rev_app_distr in Er. discriminate Er.
  - apply rev_cons_inv in Er.
    assert (Hm : let r := Chat.appendToMessage chunk m in
                 Chat.id (fst r) = Chat.id m
                 /\ Chat.role (fst r) = Chat.role m
                 /\ Chat.timestamp (fst r) = Chat.timestamp m
                 /\ (Chat.role m = Chat.assistant ->
                     Chat.content (fst r) = Chat.content m ++ chunk)
                 /\ (Chat.role m = Chat.user -> r = (m, None))).
    { unfold Chat.appendToMessage. destruct m as [i r c k t]. simpl.
      destruct r.
      - repeat split. discriminate.
      - destruct (Chat.validCode (c ++ chunk)); simpl;
          repeat split; discriminate. }
    cbn zeta in Hm.
    destruct (Chat.appendToMessage chunk m) as [m' k'].
    simpl in Hm. destruct Hm as (Hi & Hr & Ht & Hc & Hu).
    cbn [Chat.messages Chat.isLoading Chat.viewMode Chat.isModelInitialized
         Chat.currentCode].
    split; [rewrite Er, !length_app; reflexivity|].
    split; [reflexivity|]. split; [reflexivity|]. split; [reflexivity|].
    split; [intros E; rewrite E in Er; destruct (rev earlier); discriminate Er|].
    intros earlier' m0 E. rewrite E in Er.
    apply app_inj_tail in Er. destruct Er as [-> ->].
    exists m'. split; [reflexivity|]. split; [exact Hi|]. split; [exact Hr|].
    split; [exact Ht|]. split; [exact Hc|].
    intros Hrole. specialize (Hu Hrole). inversion Hu; subst.
    split; reflexivity.
Qed.

(** X24: only sound code reaches [currentCode].  After
    [updateLastMessage], [currentCode] is either what it was or a text
    that contains both [<!DOCTYPE html>] and [</html>]; in the second
    case it is the trimmed content of the first fenced block of the last
    message, which belongs to the assistant and now carries that code. *)
Theorem updateLastMessage_code chunk state :
  let state' := Chat.updateLastMessage chunk state in
  Chat.currentCode state' = Chat.currentCode state
  \/ (includes (Chat.currentCode state') (lit "<!DOCTYPE html>") = true
      /\ includes (Chat.currentCode state') (lit "</html>") = true
      /\ exists earlier m inner,
           Chat.messages state' = earlier ++ [m]
           /\ Chat.role m = Chat.assistant
           /\ Chat.code m = Some (Chat.currentCode state')
           /\ firstMatch fenceAt (Chat.content m) = Some inner
           /\ Chat.currentCode state' = trim inner).
Proof.
  intros state'. subst state'. unfold Chat.updateLastMessage.
  destruct (rev (Chat.messages state)) as [|m earlier] eqn:Er;
    [left; reflexivity|].
  unfold Chat.appendToMessage. destruct m as [i r c k t]. simpl.
  destruct r; [left; reflexivity|].
  destruct (Chat.validCode (c ++ chunk)) as [code|] eqn:E;
    [|left; reflexivity].
  right. simpl. unfold Chat.validCode in E.
  destruct (firstMatch fenceAt (c ++ chunk)) as [inner|] eqn:Ef;
    [|discriminate E].
  destruct (includes (trim inner) (lit "<!DOCTYPE html>")
            && includes (trim inner) (lit "</html>")) eqn:Ev;
    [|discriminate E].
  inversion E; subst code. apply andb_prop in Ev. destruct Ev as [E1 E2].
  split; [exact E1|]. split; [exact E2|].
  eexists. eexists. exists inner.
  split; [reflexivity|]. simpl. repeat split. exact Ef.
Qed.

(* ================================================================== *)
(** * Ordinals below 1 *)
(* ================================================================== *)

(** X25: [healCode] has no lower bound on the ordinal.  Called with an
    ordinal below 1 it is not refused: it picks [rebuild_from_scratch],
    the last step of the escalation, sends its one request with a prompt
    for that strategy, and records the attempt under that ordinal when
    the service answers. *)
Theorem healCode_below_one now service originalPrompt brokenCode errs n w :
  (n < 1)%Z ->
  selectStrategy errs n = rebuild_from_scratch
  /\ (exists r,
        sent (snd (healCode now service originalPrompt brokenCode errs n w))
        = sent w ++ [r]
        /\ arg_prompt r
           = buildFixPrompt originalPrompt brokenCode errs
               rebuild_from_scratch n)
  /\ (forall response,
        service (sent w)
          (fixRequest
             (buildFixPrompt originalPrompt brokenCode errs
                rebuild_from_scratch n) w)
        = inl response ->
        exists a,
          attemptHistory
            (engine (snd (healCode now service originalPrompt brokenCode
                            errs n w)))
          = attemptHistory (engine w) ++ [a]
          /\ attemptNumber a = n
          /\ strategy a = rebuild_from_scratch).
Proof.
  intros Hn.
  assert (Es : selectStrategy errs n = rebuild_from_scratch).
  { unfold selectStrategy.
    destruct (Z.eqb_spec n 1); [lia|]. destruct (Z.eqb_spec n 2); [lia|].
    destruct (Z.eqb_spec n 3); [lia|]. destruct (Z.eqb_spec n 4); [lia|].
    reflexivity. }
  assert (H5 : (n <= maxAttempts)%Z) by (unfold maxAttempts; lia).
  split; [exact Es|]. split.
  - exists (fixRequest
              (buildFixPrompt originalPrompt brokenCode errs
                 rebuild_from_scratch n) w).
    split; [|reflexivity].
    destruct (service (sent w)
                (fixRequest
                   (buildFixPrompt originalPrompt brokenCode errs
                      (selectStrategy errs n) n) w))
      as [response|text] eqn:E.
    + rewrite (@healCode_resolved now service originalPrompt brokenCode errs
                 n w response H5 E).
      rewrite Es. reflexivity.
    + rewrite (@healCode_rejected now service originalPrompt brokenCode errs
                 n w text H5 E).
      rewrite Es. reflexivity.
  - intros response E. rewrite <- Es in E.
    rewrite (@healCode_resolved now service originalPrompt brokenCode errs
               n w response H5 E).
    cbn [snd engine attemptHistory]. eexists.
    split; [reflexivity|]. split; [reflexivity | exact Es].
Qed.

Lemma healCode_below_one_witness :
  (0 < 1)%Z /\
  selectStrategy sampleDefects 0 = rebuild_from_scratch /\
  List.length
    (sent (snd (healCode zeroClock sampleService (lit "a clock")
                  sampleUnfinished sampleDefects 0 newWorld)))
  = 1.
Proof.
  assert (H : (0 < 1)%Z) by lia.
  split; [exact H|].
  destruct (healCode_below_one zeroClock sampleService (lit "a clock")
              sampleUnfinished sampleDefects newWorld H)
    as (Es & (r & Er & _) & _).
  split; [exact Es|]. rewrite Er. reflexivity.
Defined.
